(** * buddy-paws cloud functions: hazard response normalisation and
      place-distance enrichment

    A shallow embedding of the hazard-detection functions (the TypeScript
    free-text processor and the Go structured-JSON entry point) and of the
    place search service, followed by the properties proved about them. *)

From Stdlib Require Import NArith List String Ascii Bool Lia DecimalString.
Import ListNotations.

Local Open Scope N_scope.

(** ** Text

    Both runtimes' strings are modelled as lists of numeric characters:
    UTF-16 code units for the TypeScript functions, Unicode code points for
    the Go functions (every Go string handled here comes out of
    [encoding/json], which only produces valid UTF-8, so a list of runes
    carries the same information as the bytes). *)

Module Text.

Definition text := list N.

(** A literal of the source, as the list of its characters. *)
Definition str (s : string) : text :=
  map N_of_ascii (list_ascii_of_string s).

(** Upper-casing restricted to the ASCII letters [a]..[z]. *)
Definition asciiUpper (c : N) : N :=
  if (97 <=? c) && (c <=? 122) then c - 32 else c.

Fixpoint eqb (a b : text) : bool :=
  match a, b with
  | [], [] => true
  | x :: a', y :: b' => (x =? y) && eqb a' b'
  | _, _ => false
  end.

End Text.

Import Text.

(** ** The free-text processor (TypeScript, [HazardResponseProcessor]) *)

Module Processor.

(** [\s] of an ECMAScript regular expression, which is also the set that
    [String.prototype.trim] removes: WhiteSpace and LineTerminator. *)
Definition isWhiteSpace (c : N) : bool :=
  (c =? 9) || (c =? 10) || (c =? 11) || (c =? 12) || (c =? 13) ||
  (c =? 32) || (c =? 160) || (c =? 5760) ||
  ((8192 <=? c) && (c <=? 8202)) ||
  (c =? 8232) || (c =? 8233) || (c =? 8239) || (c =? 8287) ||
  (c =? 12288) || (c =? 65279).

(** The character class [[.\s]]. *)
Definition dotOrSpace (c : N) : bool := (c =? 46) || isWhiteSpace c.

Definition HIGH : text := Eval cbv in str "HIGH".
Definition MED : text := Eval cbv in str "MED".
Definition LOW : text := Eval cbv in str "LOW".

(** One pattern character against one input character under the [i] flag
    (no [u] flag).  The pattern characters are upper-case ASCII letters;
    Canonicalize never maps a code unit of 128 or more to one below 128, so
    only the two ASCII cases of the letter match. *)
Definition canonMatch (p c : N) : bool := asciiUpper c =? p.

(** A literal of the pattern at the head of the input: the text it matched
    and the rest of the input. *)
Fixpoint matchLiteral (lit s : text) {struct lit} : option (text * text) :=
  match lit with
  | [] => Some ([], s)
  | p :: lit' =>
      match s with
      | [] => None
      | c :: s' =>
          if canonMatch p c then
            match matchLiteral lit' s' with
            | Some (m, rest) => Some (c :: m, rest)
            | None => None
            end
          else None
      end
  end.

(** [[.\s]*$]: the greedy star followed by the end-of-input assertion.  The
    star first takes one more character; giving a character back leaves the
    matcher in front of [$] with input remaining, which fails. *)
Fixpoint starThenEnd (s : text) : option text :=
  match s with
  | [] => Some []
  | c :: s' =>
      if dotOrSpace c then
        match starThenEnd s' with
        | Some m => Some (c :: m)
        | None => None
        end
      else None
  end.

(** The alternatives of the group, tried left to right, each followed by
    the remainder of the pattern: capture group 1 and the trailing run. *)
Fixpoint matchAlternatives (alts : list text) (s : text) : option (text * text) :=
  match alts with
  | [] => None
  | lit :: alts' =>
      match matchLiteral lit s with
      | Some (g, rest) =>
          match starThenEnd rest with
          | Some tail => Some (g, tail)
          | None => matchAlternatives alts' s
          end
      | None => matchAlternatives alts' s
      end
  end.

(** [/(HIGH|MED|LOW)[.\s]*$/i] anchored at the head of the input. *)
Definition matchHere (s : text) : option (text * text) :=
  matchAlternatives [HIGH; MED; LOW] s.

Record RegExpMatch := {
  before : text;   (* input preceding the match *)
  group1 : text;   (* capture group 1 *)
  trailing : text  (* what [[.\s]*] consumed; the match ends the input *)
}.

(** The leftmost match: start positions are tried from index 0 upwards. *)
Fixpoint regexExec (s : text) : option RegExpMatch :=
  match matchHere s with
  | Some (g, tail) => Some {| before := []; group1 := g; trailing := tail |}
  | None =>
      match s with
      | [] => None
      | c :: s' =>
          match regexExec s' with
          | Some m => Some {| before := c :: before m;
                              group1 := group1 m;
                              trailing := trailing m |}
          | None => None
          end
      end
  end.

(** [analysis.replace(regex, '')]: the match always runs to the end of the
    input, so what is left is the text before it. *)
Definition replaceRegex (s : text) : text :=
  match regexExec s with
  | Some m => before m
  | None => s
  end.

(** [toUpperCase] on capture group 1, which holds ASCII letters only. *)
Definition toUpperCase (s : text) : text := map asciiUpper s.

Fixpoint trimStart (s : text) : text :=
  match s with
  | [] => []
  | c :: s' => if isWhiteSpace c then trimStart s' else s
  end.

Fixpoint trimEnd (s : text) : text :=
  match s with
  | [] => []
  | c :: s' =>
      match trimEnd s' with
      | [] => if isWhiteSpace c then [] else [c]
      | t => c :: t
      end
  end.

Definition trim (s : text) : text := trimEnd (trimStart s).

(** [.replace(/\s+/g, ' ')]: every maximal run of white space becomes one
    space (the space is written when the run's last character is read). *)
Fixpoint collapseWhiteSpace (s : text) : text :=
  match s with
  | [] => []
  | c :: s' =>
      if isWhiteSpace c then
        match s' with
        | [] => [32]
        | c' :: _ =>
            if isWhiteSpace c' then collapseWhiteSpace s'
            else 32 :: collapseWhiteSpace s'
        end
      else c :: collapseWhiteSpace s'
  end.

Record HazardDetectionResponse := {
  speechText : text;
  severity : text
}.

(** The two locals of [processHazardAnalysis]. *)
Definition severityOf (analysis : text) : text :=
  match regexExec analysis with
  | Some severityMatch => toUpperCase (group1 severityMatch)
  | None => MED
  end.

Definition speechTextOf (analysis : text) : text :=
  collapseWhiteSpace (trim (replaceRegex analysis)).

Definition fallbackSpeech : text :=
  Eval cbv in str "Unable to analyze image properly".

Definition fallbackResponse : HazardDetectionResponse :=
  {| speechText := fallbackSpeech; severity := MED |}.

(** [processHazardAnalysis]; nothing in its [try] block throws on a string,
    so the [catch] branch contributes no result. *)
Definition processHazardAnalysis (analysis : text) : HazardDetectionResponse :=
  let severity := severityOf analysis in
  let speechText := speechTextOf analysis in
  match speechText with
  | [] => fallbackResponse
  | _ => {| speechText := speechText; severity := severity |}
  end.

(** *** The parser as the specification words it

    A trailing severity token: the input splits into the text before the
    token, the token (HIGH, MED or LOW in any letter case) and a final run
    of dots and white space. *)
Definition isToken (tok : text) : bool :=
  eqb (toUpperCase tok) HIGH || eqb (toUpperCase tok) MED
  || eqb (toUpperCase tok) LOW.

Definition TrailingToken (analysis pre tok tail : text) : Prop :=
  analysis = pre ++ tok ++ tail /\
  isToken tok = true /\
  forallb dotOrSpace tail = true.

(** The words of a text (maximal runs without white space) and their
    joining with single spaces. *)
Fixpoint words (s : text) : list text :=
  match s with
  | [] => []
  | c :: s' =>
      if isWhiteSpace c then words s'
      else
        match s' with
        | [] => [[c]]
        | c' :: _ =>
            if isWhiteSpace c' then [c] :: words s'
            else
              match words s' with
              | w :: ws => (c :: w) :: ws
              | [] => [[c]]
              end
        end
  end.

Fixpoint unwords (ws : list text) : text :=
  match ws with
  | [] => []
  | [w] => w
  | w :: ws' => w ++ 32 :: unwords ws'
  end.

Definition singleSpaced (s : text) : text := unwords (words s).

End Processor.

(** ** The hazard detection service and handler (TypeScript) *)

Module HazardService.
Import Processor.

(** A thrown JavaScript value: an [Error] with its message, or anything
    else. *)
Inductive Thrown :=
| ErrorObj (message : string)
| OtherThrown.

Definition errorMessage (e : Thrown) : string :=
  match e with
  | ErrorObj m => m
  | OtherThrown => "Unknown error"%string
  end.

(** A part of the model's answer; only some parts carry a [text]. *)
Inductive Part :=
| TextPart (t : text)
| OtherPart.

Record InlineData := {
  data : text;
  mimeType : string
}.

(** The body of a response; the [timestamp] field of the error bodies (the
    wall clock) is left out. *)
Inductive Json :=
| ErrorJson (error : string) (details : option string)
| ResultJson (result : HazardDetectionResponse).

Record Response := {
  status : N;
  json : Json
}.

Record RequestBody := {
  image : option text
}.

Section Service.

(** [Buffer.from(s, 'base64')] of the Node runtime. *)
Variable bufferFromBase64 : text -> list Byte.byte.

(** The generative model behind [generateContent]: it throws, or answers;
    [None] stands for an answer without
    [response.candidates[0].content.parts]. *)
Variable generateContent : InlineData -> Thrown + option (list Part).

Definition MAX_IMAGE_SIZE : N := 4 * 1024 * 1024.

Definition validateImageData (imageData : text) : Thrown + unit :=
  match imageData with
  | [] => inl (ErrorObj "Image data is empty")
  | _ =>
      let sizeInBytes := N.of_nat (List.length (bufferFromBase64 imageData)) in
      if MAX_IMAGE_SIZE <? sizeInBytes
      then inl (ErrorObj "Image size exceeds maximum limit of 4MB")
      else inr tt
  end.

(** [parts.filter(part => 'text' in part).map(part => part.text).join(' ')] *)
Fixpoint textsOf (parts : list Part) : list text :=
  match parts with
  | [] => []
  | TextPart t :: parts' => t :: textsOf parts'
  | OtherPart :: parts' => textsOf parts'
  end.

Fixpoint join (sep : text) (l : list text) : text :=
  match l with
  | [] => []
  | [t] => t
  | t :: l' => t ++ sep ++ join sep l'
  end.

(** [detectHazardsInImage]; its [catch] logs and rethrows. *)
Definition detectHazardsInImage (imageData : text) : Thrown + text :=
  match validateImageData imageData with
  | inl e => inl e
  | inr _ =>
      let imagePart := {| data := imageData; mimeType := "image/jpeg" |} in
      match generateContent imagePart with
      | inl e => inl e
      | inr None => inl (ErrorObj "Invalid response format from Vertex AI")
      | inr (Some parts) => inr (join [32] (textsOf parts))
      end
  end.

Definition handleDetectHazards (body : option RequestBody) : Response :=
  match body with
  | None => {| status := 400; json := ErrorJson "Missing request body" None |}
  | Some b =>
      match image b with
      | None | Some [] =>
          {| status := 400;
             json := ErrorJson "Missing image data in request body" None |}
      | Some img =>
          match detectHazardsInImage img with
          | inl error =>
              {| status := 500;
                 json := ErrorJson "Error processing image for hazard detection"
                           (Some (errorMessage error)) |}
          | inr [] =>
              {| status := 500;
                 json := ErrorJson "No analysis result from Vertex AI" None |}
          | inr analysisText =>
              {| status := 200;
                 json := ResultJson (processHazardAnalysis analysisText) |}
          end
      end
  end.

End Service.

End HazardService.

(** ** The structured-JSON entry point (Go, [DetectHazards]) *)

Module Detect.

(** *** [strings] *)

Fixpoint HasPrefix (s prefix : text) {struct prefix} : bool :=
  match prefix with
  | [] => true
  | p :: prefix' =>
      match s with
      | [] => false
      | c :: s' => (c =? p) && HasPrefix s' prefix'
      end
  end.

Definition TrimPrefix (s prefix : text) : text :=
  if HasPrefix s prefix then skipn (List.length prefix) s else s.

(** [strings.Split(s, sep)] for a one-character separator. *)
Fixpoint Split (s : text) (sep : N) : list text :=
  match s with
  | [] => [[]]
  | c :: s' =>
      if c =? sep then [] :: Split s' sep
      else
        match Split s' sep with
        | part :: parts => (c :: part) :: parts
        | [] => [[c]]
        end
  end.

#[local] Set Warnings "-register-all".

(** *** JSON documents

    A JSON text is represented by what the scanner of [encoding/json] makes
    of it: a syntax error, or the value it denotes. *)
Inductive json :=
| JNull
| JBool (b : bool)
| JNumber (literal : text)
| JString (s : text)
| JArray (elements : list json)
| JObject (members : list (text * json)).

Inductive JsonText :=
| SyntaxError
| Value (v : json).

Record Hazard := {
  Position : text;
  Type_ : text;
  HazardSeverity : text;
  Description : text
}.

Record HazardDetection := {
  Hazards : list Hazard;
  Severity : text;
  SafeDirection : text
}.

Record HazardDetectionRequest := {
  Image : text
}.

Record HazardDetectionResponse := {
  SpeechText : text;
  ResponseSeverity : text
}.

Inductive Part :=
| Text (jsonStr : JsonText)
| Blob.

Record Candidate := {
  Content : option (list Part)
}.

Record Request := {
  Method : string;
  XAPIKey : string;
  Body : JsonText
}.

(** What the function leaves behind: a response written with its status
    code, a run-time panic, or the exit of [log.Fatalf]. *)
Inductive Payload :=
| NoContent
| ErrorPayload (message : string)
| DetectionPayload (response : HazardDetectionResponse).

Inductive Outcome :=
| Responded (code : N) (payload : Payload)
| Panicked
| Fatal.

Section Runtime.

(** [unicode.ToUpper] above ASCII (the case tables of the library). *)
Variable upperTable : N -> N.

(** [foldRune] of [encoding/json] above ASCII. *)
Variable foldTable : N -> N.

(** [base64.StdEncoding.DecodeString]; on the left the text of its error. *)
Variable DecodeString : text -> string + list Byte.byte.

(** The generative model behind [GenerateContent]. *)
Variable GenerateContent : text -> list Byte.byte -> string + list Candidate.

(** The environment: [API_KEY], and whether the two clients can be made. *)
Variable API_KEY : string.
Variable loggingClient : bool.
Variable genaiClient : bool.

Definition unicode_ToUpper (r : N) : N :=
  if r <=? 127 then
    if (97 <=? r) && (r <=? 122) then r - 32 else r
  else upperTable r.

Definition ToUpper (s : text) : text := map unicode_ToUpper s.

(** *** [encoding/json] into the structs of this program *)

Definition foldName (name : text) : text :=
  map (fun c => if c <? 128 then asciiUpper c else foldTable c) name.

Definition sameField (name key : text) : bool :=
  eqb (foldName name) (foldName key).

(** A JSON value into a [string] field: [null] leaves the field as it is,
    anything but a string is a type error. *)
Definition intoString (v : json) (old : text) : option text :=
  match v with
  | JNull => Some old
  | JString s => Some s
  | _ => None
  end.

Fixpoint hazardMembers (members : list (text * json)) (h : Hazard) : option Hazard :=
  match members with
  | [] => Some h
  | (key, v) :: members' =>
      let next :=
        if sameField (str "position") key then
          option_map (fun s => {| Position := s; Type_ := Type_ h;
                                  HazardSeverity := HazardSeverity h;
                                  Description := Description h |})
                     (intoString v (Position h))
        else if sameField (str "type") key then
          option_map (fun s => {| Position := Position h; Type_ := s;
                                  HazardSeverity := HazardSeverity h;
                                  Description := Description h |})
                     (intoString v (Type_ h))
        else if sameField (str "severity") key then
          option_map (fun s => {| Position := Position h; Type_ := Type_ h;
                                  HazardSeverity := s;
                                  Description := Description h |})
                     (intoString v (HazardSeverity h))
        else if sameField (str "description") key then
          option_map (fun s => {| Position := Position h; Type_ := Type_ h;
                                  HazardSeverity := HazardSeverity h;
                                  Description := s |})
                     (intoString v (Description h))
        else Some h
      in
      match next with
      | Some h' => hazardMembers members' h'
      | None => None
      end
  end.

Definition zeroHazard : Hazard :=
  {| Position := []; Type_ := []; HazardSeverity := []; Description := [] |}.

Definition intoHazard (v : json) : option Hazard :=
  match v with
  | JNull => Some zeroHazard
  | JObject members => hazardMembers members zeroHazard
  | _ => None
  end.

Fixpoint intoHazardList (elements : list json) : option (list Hazard) :=
  match elements with
  | [] => Some []
  | v :: elements' =>
      match intoHazard v, intoHazardList elements' with
      | Some h, Some hs => Some (h :: hs)
      | _, _ => None
      end
  end.

(** A JSON value into a slice field: [null] sets the slice to [nil]. *)
Definition intoHazards (v : json) : option (list Hazard) :=
  match v with
  | JNull => Some []
  | JArray elements => intoHazardList elements
  | _ => None
  end.

Fixpoint detectionMembers (members : list (text * json)) (d : HazardDetection)
  : option HazardDetection :=
  match members with
  | [] => Some d
  | (key, v) :: members' =>
      let next :=
        if sameField (str "hazards") key then
          option_map (fun hs => {| Hazards := hs; Severity := Severity d;
                                   SafeDirection := SafeDirection d |})
                     (intoHazards v)
        else if sameField (str "severity") key then
          option_map (fun s => {| Hazards := Hazards d; Severity := s;
                                  SafeDirection := SafeDirection d |})
                     (intoString v (Severity d))
        else if sameField (str "safe_direction") key then
          option_map (fun s => {| Hazards := Hazards d; Severity := Severity d;
                                  SafeDirection := s |})
                     (intoString v (SafeDirection d))
        else Some d
      in
      match next with
      | Some d' => detectionMembers members' d'
      | None => None
      end
  end.

Definition zeroDetection : HazardDetection :=
  {| Hazards := []; Severity := []; SafeDirection := [] |}.

(** [json.Unmarshal(jsonStr, &detection)] on a fresh [detection]; [None]
    is a non-nil [err] (syntax error or type error). *)
Definition UnmarshalDetection (jsonStr : JsonText) : option HazardDetection :=
  match jsonStr with
  | SyntaxError => None
  | Value JNull => Some zeroDetection
  | Value (JObject members) => detectionMembers members zeroDetection
  | Value _ => None
  end.

Fixpoint requestMembers (members : list (text * json)) (r : HazardDetectionRequest)
  : option HazardDetectionRequest :=
  match members with
  | [] => Some r
  | (key, v) :: members' =>
      let next :=
        if sameField (str "image") key then
          option_map (fun s => {| Image := s |}) (intoString v (Image r))
        else Some r
      in
      match next with
      | Some r' => requestMembers members' r'
      | None => None
      end
  end.

(** [json.NewDecoder(r.Body).Decode(&req)] *)
Definition DecodeRequest (body : JsonText) : option HazardDetectionRequest :=
  match body with
  | SyntaxError => None
  | Value JNull => Some {| Image := [] |}
  | Value (JObject members) => requestMembers members {| Image := [] |}
  | Value _ => None
  end.

(** *** The functions of the program *)

Definition safeguardSeverity (detection : HazardDetection) : text :=
  if eqb (Severity detection) (str "HIGH") then str "HIGH"
  else if eqb (Severity detection) (str "MEDIUM") then str "MEDIUM"
  else
    let safeDir := ToUpper (SafeDirection detection) in
    if HasPrefix safeDir (str "STOP") then str "HIGH"
    else if HasPrefix safeDir (str "CAUTION") || HasPrefix safeDir (str "SLOW")
    then str "MEDIUM"
    else str "LOW".

Inductive ImageError :=
| InvalidDataURI                    (* "invalid image format in data URI" *)
| DecodeFailed (err : string).      (* "failed to decode base64 data: <err>" *)

Definition imageErrorText (e : ImageError) : string :=
  match e with
  | InvalidDataURI => "invalid image format in data URI"
  | DecodeFailed err => String.append "failed to decode base64 data: " err
  end.

Definition processBase64Image (base64Image : text)
  : ImageError + (list Byte.byte * text) :=
  let parts := Split base64Image 44 in
  let chosen :=
    match parts with
    | [meta; payload] =>
        let metaParts := Split meta 59 in
        match metaParts with
        | [m0; _] =>
            if HasPrefix m0 (str "data:image/")
            then inr (payload, TrimPrefix m0 (str "data:image/"))
            else inl InvalidDataURI
        | _ => inl InvalidDataURI
        end
    | _ => inr (base64Image, str "jpeg")
    end in
  match chosen with
  | inl e => inl e
  | inr (b64Data, format) =>
      match DecodeString b64Data with
      | inl err => inl (DecodeFailed err)
      | inr imageData => inr (imageData, format)
      end
  end.

Definition validateAPIKey (r : Request) : bool :=
  if String.eqb (XAPIKey r) "" then false
  else if String.eqb API_KEY "" then true
  else String.eqb (XAPIKey r) API_KEY.

Definition respondWithError (code : N) (message : string) : Outcome :=
  Responded code (ErrorPayload message).

Definition DetectHazards (r : Request) : Outcome :=
  if negb loggingClient then Fatal
  else if String.eqb (Method r) "OPTIONS" then Responded 204 NoContent
  else if negb (String.eqb (Method r) "POST")
  then respondWithError 405 "Method not allowed"
  else if negb (validateAPIKey r)
  then respondWithError 401 "Invalid API key"
  else
    match DecodeRequest (Body r) with
    | None => respondWithError 400 "Invalid request body"
    | Some req =>
        match processBase64Image (Image req) with
        | inl err =>
            respondWithError 400
              (String.append "Invalid image data: " (imageErrorText err))
        | inr (imageData, format) =>
            if negb genaiClient
            then respondWithError 500 "Error creating new client"
            else
              match GenerateContent format imageData with
              | inl _ => respondWithError 500 "Error at processing"
              | inr [] => respondWithError 500 "No response - candidates"
              | inr (candidate :: _) =>
                  match Content candidate with
                  | None => Panicked
                  | Some [] => respondWithError 500 "No response - parts"
                  | Some (Blob :: _) => Panicked
                  | Some (Text jsonStr :: _) =>
                      match UnmarshalDetection jsonStr with
                      | None => respondWithError 500 "Error unmarshaling JSON"
                      | Some detection =>
                          let severity := safeguardSeverity detection in
                          Responded 200
                            (DetectionPayload
                               {| SpeechText := SafeDirection detection;
                                  ResponseSeverity := severity |})
                      end
                  end
              end
        end
    end.

(** [DetectHazards] gets as far as the model, whose first candidate starts
    with the text [jsonStr]. *)
Definition ModelAnswers (r : Request) (jsonStr : JsonText) : Prop :=
  loggingClient = true /\
  Method r = "POST"%string /\
  validateAPIKey r = true /\
  genaiClient = true /\
  exists req imageData format candidate candidates parts,
    DecodeRequest (Body r) = Some req /\
    processBase64Image (Image req) = inr (imageData, format) /\
    GenerateContent format imageData = inr (candidate :: candidates) /\
    Content candidate = Some (Text jsonStr :: parts).

(** No member of the object names the field. *)
Definition lacksField (name : text) (members : list (text * json)) : bool :=
  forallb (fun member => negb (sameField name (fst member))) members.

End Runtime.

End Detect.

(** ** The severity escalation engine as the specification words it

    The rules of the specification speak of the upper-cased text starting
    with a keyword.  Both notions are written here as relations on texts,
    without the string functions of the program: a character and its
    upper-case form, and a text that splits into the keyword and a rest. *)

Module Engine.

Section Table.

(** The simple upper-case mapping of Unicode above ASCII. *)
Variable upperTable : N -> N.

(** [UpperOf c u]: [u] is the upper-case form of the character [c].  The
    letters a to z become A to Z, every other ASCII character is its own
    upper-case form, the characters above ASCII follow the table. *)
Inductive UpperOf : N -> N -> Prop :=
| upper_letter (c : N) : 97 <= c -> c <= 122 -> UpperOf c (c - 32)
| upper_ascii (c : N) : c < 97 \/ 122 < c -> c <= 127 -> UpperOf c c
| upper_table (c : N) : 127 < c -> UpperOf c (upperTable c).

(** [upper] is the text [s] in upper case, character by character. *)
Definition UpperCased (s upper : text) : Prop := Forall2 UpperOf s upper.

Definition StartsWith (keyword s : text) : Prop :=
  exists rest, s = keyword ++ rest.

(** The text, upper-cased for the comparison, starts with the keyword. *)
Definition Begins (keyword : string) (safeDirection : text) : Prop :=
  exists upper,
    UpperCased safeDirection upper /\ StartsWith (str keyword) upper.

End Table.

End Engine.

(** ** The severity invariant of a response *)

Module Invariant.

(** The speech begins with the keyword, letter case ignored. *)
Definition beginsWith (keyword speechText : text) : bool :=
  Detect.HasPrefix (map asciiUpper speechText) keyword.

Definition isLow (severity : text) : bool := eqb severity (str "LOW").

(** MEDIUM (spelled MED on the free-text path) or HIGH. *)
Definition atLeastMedium (severity : text) : bool :=
  eqb severity (str "MEDIUM") || eqb severity (str "MED")
  || eqb severity (str "HIGH").

Definition holds (speechText severity : text) : Prop :=
  (beginsWith (str "STOP") speechText = true -> isLow severity = false) /\
  (beginsWith (str "CAUTION") speechText = true \/
   beginsWith (str "SLOW") speechText = true ->
   atLeastMedium severity = true).

End Invariant.

(** ** The place search service (TypeScript, [SearchPlacesService]) *)

Module Places.

Record TextValue := {
  text_ : string;
  value : N
}.

(** One element of a distance-matrix row; either property may be missing. *)
Record Element := {
  distance : option TextValue;
  duration : option TextValue
}.

Record Row := {
  elements : list Element
}.

Record DistanceData := {
  rows : list Row
}.

(** What [axios] throws, and what the service throws. *)
Record AxiosError := {
  responseMessage : option string;   (* error.response?.data?.message *)
  message : string
}.

Inductive Thrown :=
| Axios (e : AxiosError)
| TypeError
| ErrorObj (message : string).

Section Service.

(** JavaScript numbers are only passed along and printed. *)
Variable number : Type.
Variable numberToString : number -> string.

Record Coordinates := {
  latitude : number;
  longitude : number
}.

Record Place := {
  displayName : string;
  formattedAddress : string;
  location : option Coordinates
}.

(** [{...place, distance, duration}] *)
Record EnrichedPlace := {
  place : Place;
  placeDistance : option TextValue;
  placeDuration : option TextValue
}.

(** [response.data]; [places] is [undefined] when the property is absent. *)
Record PlacesData := {
  places : option (list Place)
}.

Record SearchBody := {
  textQuery : string;
  center : Coordinates;
  radius : number;
  rankPreference : string
}.

Record SearchHeaders := {
  fieldMask : string;
  apiKeyHeader : option string
}.

Record DistanceParams := {
  origins : string;
  destinations : string;
  mode : string;
  key : option string
}.

(** The requests that leave the service, in the order they are made. *)
Inductive Call :=
| PlacesPost (url : string) (body : SearchBody) (headers : SearchHeaders)
| DistanceGet (url : string) (params : DistanceParams).

(** The two gateways and the configured key. *)
Variable placesGateway : SearchBody -> SearchHeaders -> AxiosError + PlacesData.
Variable distanceGateway : DistanceParams -> AxiosError + DistanceData.
Variable apiKey : option string.

(** Computations that make requests and may throw. *)
Definition M (A : Type) : Type := list Call -> list Call * (Thrown + A).

Definition ret {A} (a : A) : M A := fun log => (log, inr a).

Definition throw {A} (e : Thrown) : M A := fun log => (log, inl e).

Definition bind {A B} (c : M A) (k : A -> M B) : M B :=
  fun log =>
    match c log with
    | (log', inr a) => k a log'
    | (log', inl e) => (log', inl e)
    end.

Definition tryCatch {A} (c : M A) (handler : Thrown -> M A) : M A :=
  fun log =>
    match c log with
    | (log', inl e) => handler e log'
    | r => r
    end.

Notation "x <- c ;; k" := (bind c (fun x => k))
  (at level 61, c at next level, right associativity).

Fixpoint mapM {A B} (f : A -> nat -> M B) (l : list A) (index : nat) : M (list B) :=
  match l with
  | [] => ret []
  | a :: l' =>
      b <- f a index ;;
      bs <- mapM f l' (S index) ;;
      ret (b :: bs)
  end.

Definition placesUrl : string := "https://places.googleapis.com/v1/places:searchText".
Definition distanceMatrixUrl : string :=
  "https://maps.googleapis.com/maps/api/distancematrix/json".

Definition axiosPost (body : SearchBody) (headers : SearchHeaders) : M PlacesData :=
  fun log =>
    (log ++ [PlacesPost placesUrl body headers],
     match placesGateway body headers with
     | inl e => inl (Axios e)
     | inr d => inr d
     end).

Definition axiosGet (params : DistanceParams) : M DistanceData :=
  fun log =>
    (log ++ [DistanceGet distanceMatrixUrl params],
     match distanceGateway params with
     | inl e => inl (Axios e)
     | inr d => inr d
     end).

(** Reading a property of [undefined] is a [TypeError]. *)
Definition defined {A} (o : option A) : M A :=
  match o with
  | Some a => ret a
  | None => throw TypeError
  end.

Definition latLng (c : Coordinates) : string :=
  String.append (numberToString (latitude c))
    (String.append "," (numberToString (longitude c))).

(** [error.response?.data?.message || error.message] *)
Definition upstreamMessage (e : AxiosError) : string :=
  match responseMessage e with
  | Some m => if String.eqb m "" then message e else m
  | None => message e
  end.

Definition searchPlaces (textQuery : string) (currentCoordinates : Coordinates)
    (radius : number) (fields : string) (rankPreference : string)
  : M (list EnrichedPlace) :=
  tryCatch
    (let config := {| fieldMask := fields; apiKeyHeader := apiKey |} in
     let body := {| textQuery := textQuery; center := currentCoordinates;
                    radius := radius; rankPreference := rankPreference |} in
     response <- axiosPost body config ;;
     places <- defined (places response) ;;
     let places :=
       if Nat.ltb 4 (List.length places) then firstn 4 places else places in
     destinations <- mapM (fun place _ => defined (location place)) places 0%nat ;;
     let origin := latLng currentCoordinates in
     distanceResponse <- axiosGet
       {| origins := origin;
          destinations := String.concat "|" (map latLng destinations);
          mode := "walking";
          key := apiKey |} ;;
     mapM (fun place index =>
             row <- defined (nth_error (rows distanceResponse) 0) ;;
             element <- defined (nth_error (elements row) index) ;;
             ret {| place := place;
                    placeDistance := distance element;
                    placeDuration := duration element |})
          places 0%nat)
    (fun error =>
       match error with
       | Axios e =>
           throw (ErrorObj (String.append "Search Places API error: "
                                          (upstreamMessage e)))
       | _ => throw error
       end).

(** Whether a request to the distance gateway is among the calls made. *)
Definition callsDistanceGateway (log : list Call) : bool :=
  existsb (fun call => match call with
                       | DistanceGet _ _ => true
                       | PlacesPost _ _ _ => false
                       end) log.

(** A place with the distance and duration of a matrix element. *)
Definition enrich (p : Place) (e : Element) : EnrichedPlace :=
  {| place := p; placeDistance := distance e; placeDuration := duration e |}.

End Service.

End Places.

(** ** The first row of a distance answer *)

Module Matrix.
Import Places.

(** [rows[0].elements], nothing when there is no row. *)
Definition firstElements (data : DistanceData) : list Element :=
  match rows data with
  | [] => []
  | row :: _ => elements row
  end.

(** The answer has an element for each of [n] destinations: a first row of
    at least [n] elements (no row at all will do for none). *)
Definition covers (data : DistanceData) (n : nat) : Prop :=
  match rows data with
  | [] => n = 0%nat
  | row :: _ => (n <= List.length (elements row))%nat
  end.

End Matrix.

(** ** The place search handler (TypeScript, [handleSearchPlaces]) *)

Module SearchHandler.

(** The [details] of an error body: [error.message].  The message of a
    [TypeError] is worded by the engine and is left abstract. *)
Inductive Details :=
| Message (m : string)
| EngineMessage.

Definition detailsOf (error : Places.Thrown) : Details :=
  match error with
  | Places.ErrorObj m => Message m
  | Places.Axios e => Message (Places.message e)
  | Places.TypeError => EngineMessage
  end.

Definition orDefault {A} (given : option A) (default : A) : A :=
  match given with
  | Some a => a
  | None => default
  end.

Section Handler.

Variable number : Type.
Variable numberToString : number -> string.
Variable placesGateway :
  Places.SearchBody number -> Places.SearchHeaders ->
  Places.AxiosError + Places.PlacesData number.
Variable distanceGateway :
  Places.DistanceParams -> Places.AxiosError + Places.DistanceData.
Variable apiKey : option string.

(** The number [10000.0]. *)
Variable tenThousand : number.

(** [req.body] as a [SearchPleacesRequest]; a property that is absent is
    [None]. *)
Record SearchPleacesRequest := {
  textQuery : option string;
  currentCoordinates : option (Places.Coordinates number);
  radius : option number;
  fields : option string;
  rankPreference : option string
}.

(** The body of a response, without the [timestamp] of the error bodies. *)
Inductive Json :=
| ErrorJson (error : string) (details : option Details)
| PlacesJson (places : list (Places.EnrichedPlace number)).

Record Response := {
  status : N;
  json : Json
}.

Definition defaultFields : string :=
  "places.displayName,places.formattedAddress,places.location".

(** [handleSearchPlaces]: the requests made and the response sent. *)
Definition handleSearchPlaces (body : option SearchPleacesRequest)
  : list (Places.Call number) * Response :=
  match body with
  | None =>
      ([], {| status := 400; json := ErrorJson "Missing request body" None |})
  | Some b =>
      let missing :=
        ([], {| status := 400;
                json := ErrorJson
                  "Missing textQuery or currentCoordinates in request body"
                  None |}) in
      match textQuery b, currentCoordinates b with
      | Some query, Some coordinates =>
          if String.eqb query "" then missing
          else
            let radius := orDefault (radius b) tenThousand in
            let fields := orDefault (fields b) defaultFields in
            let rankPreference := orDefault (rankPreference b) "DISTANCE"%string in
            match Places.searchPlaces number numberToString placesGateway
                    distanceGateway apiKey query coordinates radius fields
                    rankPreference [] with
            | (log, inr result) =>
                (log, {| status := 200; json := PlacesJson result |})
            | (log, inl error) =>
                (log, {| status := 500;
                         json := ErrorJson "Error searching places"
                                   (Some (detailsOf error)) |})
            end
      | _, _ => missing
      end
  end.

End Handler.

End SearchHandler.

(** ** Directions (TypeScript, [GetDirectionService] and
       [handleGetDirection]) *)

Module Direction.

Record DirectionParams := {
  destination : string;
  origin : string;
  key : option string;
  mode : string;
  language : string
}.

Section Service.

Variable number : Type.
Variable numberToString : number -> string.

(** [encodeURI] of the runtime. *)
Variable encodeURI : string -> string.

(** [response.data] of the directions gateway, passed along as it is. *)
Variable DirectionsResult : Type.

Variable directionsGateway :
  DirectionParams -> Places.AxiosError + DirectionsResult.
Variable apiKey : option string.

Definition directionsUrl : string :=
  "https://maps.googleapis.com/maps/api/directions/json".

Definition param (c : Places.Coordinates number) : string :=
  encodeURI
    (String.append (numberToString (Places.latitude number c))
       (String.append "," (numberToString (Places.longitude number c)))).

(** [getDirections]: the requests made ([axios.get] of [directionsUrl]
    with these parameters) and what is returned or thrown. *)
Definition getDirections (origin destination : Places.Coordinates number)
    (mode : string)
  : list DirectionParams * (Places.Thrown + DirectionsResult) :=
  let originParam := param origin in
  let destinationParam := param destination in
  let params := {| destination := destinationParam;
                   origin := originParam;
                   key := apiKey;
                   mode := mode;
                   language := "en" |} in
  ([params],
   match directionsGateway params with
   | inr data => inr data
   | inl e =>
       inl (Places.ErrorObj
              (String.append "Directions API error: "
                             (Places.upstreamMessage e)))
   end).

(** [req.body] as a [GetDirectionRequest]. *)
Record GetDirectionRequest := {
  requestOrigin : option (Places.Coordinates number);
  requestDestination : option (Places.Coordinates number);
  requestMode : option string
}.

Inductive Json :=
| ErrorJson (error : string) (details : option SearchHandler.Details)
| DirectionsJson (directions : DirectionsResult).

Record Response := {
  status : N;
  json : Json
}.

Definition handleGetDirection (body : option GetDirectionRequest)
  : list DirectionParams * Response :=
  match body with
  | None =>
      ([], {| status := 400; json := ErrorJson "Missing request body" None |})
  | Some b =>
      match requestDestination b, requestOrigin b with
      | Some destination, Some origin =>
          let mode := SearchHandler.orDefault (requestMode b) "walking"%string in
          match getDirections origin destination mode with
          | (log, inr directions) =>
              (log, {| status := 200; json := DirectionsJson directions |})
          | (log, inl error) =>
              (log, {| status := 500;
                       json := ErrorJson "Error getting direction"
                                 (Some (SearchHandler.detailsOf error)) |})
          end
      | _, _ =>
          ([], {| status := 400;
                  json := ErrorJson
                    "Missing destination or origin in request body" None |})
      end
  end.

End Service.

End Direction.

(** ** The HTTP functions (TypeScript, [searchPlaces], [detectHazards],
       [getDirection]) with [validateCors] and [validateApiKey]

    The three functions differ only in the key they are configured with
    and in the handler they end with. *)

Module Entry.

(** What the client reads: the first response that is sent.  Once a
    response is sent the framework refuses any later one. *)
Inductive Sent (R : Type) :=
| Preflight                     (* 204, empty *)
| InvalidKey                    (* 401 {error: 'Invalid API key'} *)
| MethodNotAllowed              (* 405 {error: 'Method not allowed'} *)
| Handled (response : R).       (* what the handler sends *)

Arguments Preflight {R}.
Arguments InvalidKey {R}.
Arguments MethodNotAllowed {R}.
Arguments Handled {R} response.

Definition firstSent {R} (already : option (Sent R)) (next : Sent R) : Sent R :=
  match already with
  | Some sent => sent
  | None => next
  end.

Record Request := {
  method : string;
  xApiKey : option string      (* req.headers['x-api-key'] *)
}.

(** [validateCors]: it answers a preflight request and returns [true]. *)
Definition validateCors (req : Request) : bool :=
  String.eqb (method req) "OPTIONS".

(** The asynchronous function that [validateApiKey(validApiKey)] makes:
    what it sends before it returns.  It has no [await], so this is done
    when the call returns its promise. *)
Definition validateApiKey {R} (validApiKey : string) (req : Request)
  : option (Sent R) :=
  match xApiKey req with
  | None => Some InvalidKey
  | Some providedApiKey =>
      if String.eqb providedApiKey ""
         || negb (String.eqb providedApiKey validApiKey)
      then Some InvalidKey
      else None
  end.

(** The function: the requests made to the gateways and what the client
    reads.  [handler] is the run of the handler on the request.  The test
    [!validateApiKey(API_KEY)(req, res)] negates a promise, which is an
    object and so never false: the function goes on whatever was sent. *)
Definition httpFunction {Call R} (API_KEY : string) (handler : list Call * R)
    (req : Request) : list Call * Sent R :=
  if validateCors req then ([], Preflight)
  else
    let sent := validateApiKey API_KEY req in
    if negb (String.eqb (method req) "POST")
    then ([], firstSent sent MethodNotAllowed)
    else (fst handler, firstSent sent (Handled (snd handler))).

End Entry.

(** ** The object reader (Go, [ObjectReader]) *)

Module Reader.

Inductive Part :=
| Text (text : Text.text)
| Blob.

Record Candidate := {
  Content : option (list Part)
}.

Inductive Payload :=
| NoContent
| ErrorPayload (message : string)
| SpeechPayload (SpeechText : Text.text).

Inductive Outcome :=
| Responded (code : N) (payload : Payload)
| Panicked
| Fatal.

Section Runtime.

Variable foldTable : N -> N.
Variable DecodeString : text -> string + list Byte.byte.
Variable GenerateContent : text -> list Byte.byte -> string + list Candidate.
Variable API_KEY : string.
Variable loggingClient : bool.
Variable genaiClient : bool.

Definition respondWithError (code : N) (message : string) : Outcome :=
  Responded code (ErrorPayload message).

Definition ObjectReader (r : Detect.Request) : Outcome :=
  if negb loggingClient then Fatal
  else if String.eqb (Detect.Method r) "OPTIONS" then Responded 204 NoContent
  else if negb (String.eqb (Detect.Method r) "POST")
  then respondWithError 405 "Method not allowed"
  else if negb (Detect.validateAPIKey API_KEY r)
  then respondWithError 401 "Invalid API key"
  else
    match Detect.DecodeRequest foldTable (Detect.Body r) with
    | None => respondWithError 400 "Invalid request body"
    | Some req =>
        match Detect.processBase64Image DecodeString (Detect.Image req) with
        | inl err =>
            respondWithError 400
              (String.append "Invalid image data: " (Detect.imageErrorText err))
        | inr (imageData, format) =>
            if negb genaiClient
            then respondWithError 500 "Error creating new client"
            else
              match GenerateContent format imageData with
              | inl _ => respondWithError 500 "Error at processing"
              | inr [] => respondWithError 500 "No response - candidates"
              | inr (candidate :: _) =>
                  match Content candidate with
                  | None => Panicked
                  | Some [] => respondWithError 500 "No response - parts"
                  | Some (Blob :: _) => Panicked
                  | Some (Text text :: _) =>
                      Responded 200 (SpeechPayload text)
                  end
              end
        end
    end.

End Runtime.

End Reader.

(** ** Instances of the runtime parameters, for the examples *)

Module Examples.

(** Case tables that leave the runes above ASCII alone (the examples are
    written in ASCII). *)
Definition plainTable (r : N) : N := r.

(** The alphabet of RFC 4648 base64. *)
Definition sextet (c : N) : option N :=
  if (65 <=? c) && (c <=? 90) then Some (c - 65)
  else if (97 <=? c) && (c <=? 122) then Some (c - 71)
  else if (48 <=? c) && (c <=? 57) then Some (c + 4)
  else if c =? 43 then Some 62
  else if c =? 47 then Some 63
  else None.

Definition toByte (n : N) : Byte.byte :=
  match Byte.of_N n with
  | Some b => b
  | None => Byte.x00
  end.

(** Four sextets make three bytes; a final group of three or two makes
    two bytes or one. *)
Fixpoint octets (l : list N) : list Byte.byte :=
  match l with
  | a :: b :: c :: d :: rest =>
      toByte (a * 4 + b / 16) :: toByte ((b mod 16) * 16 + c / 4)
      :: toByte ((c mod 4) * 64 + d) :: octets rest
  | [a; b; c] => [toByte (a * 4 + b / 16); toByte ((b mod 16) * 16 + c / 4)]
  | [a; b] => [toByte (a * 4 + b / 16)]
  | _ => []
  end.

(** Node's [Buffer.from(s, 'base64')]: the decoder also reads the URL-safe
    characters [-] and [_], skips every other character outside the
    alphabet, and stops at the first [=]. *)
Definition nodeSextet (c : N) : option N :=
  if c =? 45 then Some 62
  else if c =? 95 then Some 63
  else sextet c.

Fixpoint lenientSextets (s : text) : list N :=
  match s with
  | [] => []
  | c :: s' =>
      if c =? 61 then []
      else
        match nodeSextet c with
        | Some v => v :: lenientSextets s'
        | None => lenientSextets s'
        end
  end.

Definition lenientBase64 (s : text) : list Byte.byte :=
  octets (lenientSextets s).

(** A payload of [groups] times the four characters AAAA. *)
Definition quad (s : text) : text := 65 :: 65 :: 65 :: 65 :: s.

Definition longPayload (groups : N) : text := N.iter groups quad [].

(** Whole numbers, which also stand for the JavaScript numbers of the
    examples, printed in decimal. *)
Definition showN (n : N) : string := NilZero.string_of_uint (N.to_uint n).

(** Go's [base64.StdEncoding.DecodeString], read as [decodeQuantum] of
    [encoding/base64] goes through its input: quanta of four characters of
    the alphabet, CR and LF skipped wherever they stand, [=] only as the
    padding that completes the last quantum.  [Quantum j]: [j] characters of
    the current quantum have been read; [SecondPad]: the first [=] of a
    quantum of two characters has been read; [Trailing]: the padding is
    complete. *)
Inductive Stage :=
| Quantum (j : N)
| SecondPad
| Trailing.

(** The sextets of the input, or the offset that [CorruptInputError]
    carries; [si] is the index of the head of [src] in the whole input and
    [len] the length of the whole input.  (An offset counts bytes; the
    characters in front of it have all been accepted, so they are ASCII and
    bytes and characters count alike.) *)
Fixpoint scanQuanta (src : text) (si len : N) (stage : Stage) : N + list N :=
  match src with
  | [] =>
      match stage with
      | Quantum 0 => inr []
      | Quantum j => inl (si - j)
      | SecondPad => inl len
      | Trailing => inr []
      end
  | c :: rest =>
      if (c =? 10) || (c =? 13) then scanQuanta rest (si + 1) len stage
      else
        match stage with
        | Quantum j =>
            match sextet c with
            | Some v =>
                match scanQuanta rest (si + 1) len
                        (Quantum (if j =? 3 then 0 else j + 1)) with
                | inl offset => inl offset
                | inr vs => inr (v :: vs)
                end
            | None =>
                if negb (c =? 61) then inl si
                else if j <? 2 then inl si
                else if j =? 2 then scanQuanta rest (si + 1) len SecondPad
                else scanQuanta rest (si + 1) len Trailing
            end
        | SecondPad =>
            if c =? 61 then scanQuanta rest (si + 1) len Trailing
            else inl (si - 1)
        | Trailing => inl si
        end
  end.

Definition strictBase64 (s : text) : string + list Byte.byte :=
  match scanQuanta s 0 (N.of_nat (List.length s)) (Quantum 0) with
  | inl offset =>
      inl (String.append "illegal base64 data at input byte " (showN offset))
  | inr vs => inr (octets vs)
  end.

(** A model that answers every image with one candidate holding one text
    part. *)
Definition modelAnswering (answer : Detect.JsonText)
  : text -> list Byte.byte -> string + list Detect.Candidate :=
  fun _ _ => inr [ {| Detect.Content := Some [Detect.Text answer] |} ].

(** A POST request with a key and a small image in its body. *)
Definition imageRequest : Detect.Request :=
  {| Detect.Method := "POST";
     Detect.XAPIKey := "secret";
     Detect.Body :=
       Detect.Value
         (Detect.JObject [(str "image", Detect.JString (str "aGVsbG8="))]) |}.

Definition placeAt (name : string) (lat lng : N) : Places.Place N :=
  {| Places.displayName := name;
     Places.formattedAddress := "1 Main Street";
     Places.location :=
       Some {| Places.latitude := lat; Places.longitude := lng |} |}.

Definition walk (metres seconds : N) : Places.Element :=
  {| Places.distance := Some {| Places.text_ := "m"; Places.value := metres |};
     Places.duration := Some {| Places.text_ := "s"; Places.value := seconds |} |}.

(** Six candidates, the second and the third at the same coordinates. *)
Definition sixPlaces : list (Places.Place N) :=
  [ placeAt "A" 10 20; placeAt "B" 11 21; placeAt "C" 11 21;
    placeAt "D" 13 23; placeAt "E" 14 24; placeAt "F" 15 25 ].

Definition fourWalks : list Places.Element :=
  [ walk 100 80; walk 200 160; walk 300 240; walk 400 320 ].

Definition here : Places.Coordinates N :=
  {| Places.latitude := 1; Places.longitude := 2 |}.

(** A search request that names a query and coordinates and nothing
    else. *)
Definition pharmacyRequest : SearchHandler.SearchPleacesRequest N :=
  {| SearchHandler.textQuery := Some "pharmacy"%string;
     SearchHandler.currentCoordinates := Some here;
     SearchHandler.radius := None;
     SearchHandler.fields := None;
     SearchHandler.rankPreference := None |}.

End Examples.

(** ** The shape of a speech text *)

Module Speech.
Import Processor.

(** [tidyFrom s]: [s] follows a character that is not white space; every
    white-space character in it is one U+0020 standing between two
    characters that are not white space. *)
Fixpoint tidyFrom (s : text) : bool :=
  match s with
  | [] => true
  | c :: s' =>
      if isWhiteSpace c then
        (c =? 32) &&
        match s' with
        | [] => false
        | c' :: _ => negb (isWhiteSpace c') && tidyFrom s'
        end
      else tidyFrom s'
  end.

(** A text ready to be spoken: no white space at either end, and words
    separated by exactly one U+0020. *)
Definition tidy (s : text) : bool :=
  match s with
  | [] => true
  | c :: _ => negb (isWhiteSpace c) && tidyFrom s
  end.

(** The characters of a text that are not white space. *)
Definition inked (s : text) : text :=
  filter (fun c => negb (isWhiteSpace c)) s.

(** One of the three severity words of the free-text path. *)
Definition isSeverityWord (s : text) : bool :=
  eqb s HIGH || eqb s MED || eqb s LOW.

End Speech.

(** * Properties *)

(** ** Text *)

Lemma eqb_eq (a b : text) : Text.eqb a b = true <-> a = b.
Proof.
  revert b; induction a as [|x a IH]; intros [|y b]; simpl; split;
    try congruence; try reflexivity.
  - intros H. apply andb_true_iff in H as [H1 H2].
    apply N.eqb_eq in H1. apply IH in H2. congruence.
  - intros H. injection H as -> ->. rewrite N.eqb_refl. simpl.
    now apply IH.
Qed.

Lemma asciiUpper_letter (c p : N) :
  asciiUpper c = p -> 65 <= p <= 90 -> c = p \/ c = p + 32.
Proof.
  unfold asciiUpper. intros H Hp.
  destruct ((97 <=? c) && (c <=? 122)) eqn:E.
  - apply andb_true_iff in E as [E1 E2].
    apply N.leb_le in E1, E2. right. lia.
  - now left.
Qed.

Section ProcessorFacts.
Import Processor.

(** *** The regular expression *)

Lemma matchLiteral_sound (lit s m rest : text) :
  matchLiteral lit s = Some (m, rest) ->
  s = m ++ rest /\ toUpperCase m = lit.
Proof.
  revert s m rest; induction lit as [|p lit IH]; intros s m rest; simpl.
  - intros H; injection H as <- <-. now split.
  - destruct s as [|c s]; [discriminate|].
    unfold canonMatch. destruct (asciiUpper c =? p) eqn:E; [|discriminate].
    destruct (matchLiteral lit s) as [[m' rest']|] eqn:E'; [|discriminate].
    intros H; injection H as <- <-.
    apply IH in E' as [-> <-]. apply N.eqb_eq in E. subst p. now split.
Qed.

Lemma matchLiteral_complete (m rest : text) :
  matchLiteral (toUpperCase m) (m ++ rest) = Some (m, rest).
Proof.
  induction m as [|c m IH]; simpl; [reflexivity|].
  unfold canonMatch. now rewrite N.eqb_refl, IH.
Qed.

Lemma starThenEnd_sound (s m : text) :
  starThenEnd s = Some m -> m = s /\ forallb dotOrSpace s = true.
Proof.
  revert m; induction s as [|c s IH]; intros m; simpl.
  - intros H; injection H as <-. now split.
  - destruct (dotOrSpace c); [|discriminate].
    destruct (starThenEnd s) as [m'|]; [|discriminate].
    intros H; injection H as <-.
    destruct (IH m' eq_refl) as [-> ->]. now split.
Qed.

Lemma starThenEnd_complete (s : text) :
  forallb dotOrSpace s = true -> starThenEnd s = Some s.
Proof.
  induction s as [|c s IH]; simpl; [reflexivity|].
  intros H. apply andb_true_iff in H as [-> H]. now rewrite IH.
Qed.

Lemma isToken_cases (tok : text) :
  isToken tok = true <->
  toUpperCase tok = HIGH \/ toUpperCase tok = MED \/ toUpperCase tok = LOW.
Proof.
  unfold isToken. rewrite !orb_true_iff, !eqb_eq. tauto.
Qed.

(** A character of a token is a letter, so it is outside [[.\s]]. *)
Lemma letter_not_dotOrSpace (c p : N) :
  asciiUpper c = p -> 65 <= p <= 90 -> dotOrSpace c = false.
Proof.
  intros H Hp. destruct (asciiUpper_letter c p H Hp) as [-> | ->].
  - unfold dotOrSpace, isWhiteSpace.
    repeat (apply orb_false_iff; split);
      try (apply N.eqb_neq; lia).
    apply andb_false_iff; left; apply N.leb_gt; lia.
  - unfold dotOrSpace, isWhiteSpace.
    repeat (apply orb_false_iff; split);
      try (apply N.eqb_neq; lia).
    apply andb_false_iff; left; apply N.leb_gt; lia.
Qed.

Ltac token_shape H tok :=
  unfold HIGH, MED, LOW, toUpperCase in H;
  repeat (let c := fresh "c" in destruct tok as [|c tok]; try discriminate H);
  simpl in H.

Lemma matchAlternatives_sound (alts : list text) (s g tail : text) :
  matchAlternatives alts s = Some (g, tail) ->
  s = g ++ tail /\ In (toUpperCase g) alts /\ forallb dotOrSpace tail = true.
Proof.
  induction alts as [|lit alts IH]; simpl; [discriminate|].
  destruct (matchLiteral lit s) as [[g' rest]|] eqn:El.
  - destruct (starThenEnd rest) as [t|] eqn:Es.
    + intros H; injection H as <- <-.
      apply matchLiteral_sound in El as [-> Hu].
      apply starThenEnd_sound in Es as [-> Hc]. auto.
    + intros H. apply IH in H. tauto.
  - intros H. apply IH in H. tauto.
Qed.

Lemma matchHere_sound (s g tail : text) :
  matchHere s = Some (g, tail) ->
  s = g ++ tail /\ isToken g = true /\ forallb dotOrSpace tail = true.
Proof.
  intros H. apply matchAlternatives_sound in H as (E & Hin & Hc).
  repeat split; auto. apply isToken_cases.
  simpl in Hin. intuition congruence.
Qed.

Lemma matchHere_complete (tok tail : text) :
  isToken tok = true -> forallb dotOrSpace tail = true ->
  matchHere (tok ++ tail) = Some (tok, tail).
Proof.
  intros Ht Hc. apply isToken_cases in Ht.
  unfold matchHere, matchAlternatives.
  destruct Ht as [Ht | [Ht | Ht]].
  - rewrite <- Ht, matchLiteral_complete, starThenEnd_complete; auto.
  - assert (E1 : matchLiteral HIGH (tok ++ tail) = None).
    { token_shape Ht tok. injection Ht as H1 H2 H3.
      simpl. unfold canonMatch. rewrite H1. reflexivity. }
    rewrite E1, <- Ht, matchLiteral_complete, starThenEnd_complete; auto.
  - assert (E1 : matchLiteral HIGH (tok ++ tail) = None).
    { token_shape Ht tok. injection Ht as H1 H2 H3.
      simpl. unfold canonMatch. rewrite H1. reflexivity. }
    assert (E2 : matchLiteral MED (tok ++ tail) = None).
    { token_shape Ht tok. injection Ht as H1 H2 H3.
      simpl. unfold canonMatch. rewrite H1. reflexivity. }
    rewrite E1, E2, <- Ht, matchLiteral_complete, starThenEnd_complete; auto.
Qed.

(** Two splittings of one text into a part ending outside the class and a
    run inside the class coincide. *)
Lemma class_suffix_unique (x y t t' : text) (c d : N) :
  (x ++ [c]) ++ t = (y ++ [d]) ++ t' ->
  dotOrSpace c = false -> dotOrSpace d = false ->
  forallb dotOrSpace t = true -> forallb dotOrSpace t' = true ->
  x ++ [c] = y ++ [d] /\ t = t'.
Proof.
  intros E Hc Hd Ht Ht'.
  assert (K : forall (a b : text) (e : N) (l u : text),
            a ++ [e] = b ++ l -> forallb dotOrSpace (l ++ u) = true ->
            dotOrSpace e = false -> l = []).
  { intros a b e l u Hab Hl He.
    destruct l as [|z l] using rev_ind; [reflexivity|].
    rewrite app_assoc in Hab. apply app_inj_tail in Hab as [_ <-].
    rewrite forallb_app in Hl. apply andb_true_iff in Hl as [Hl _].
    rewrite forallb_app in Hl. apply andb_true_iff in Hl as [_ Hl].
    simpl in Hl. rewrite He in Hl. discriminate. }
  apply app_eq_app in E as [l [[E1 E2] | [E1 E2]]].
  - assert (l = []) by (apply (K x (y ++ [d]) c l t); auto; now rewrite <- E2).
    subst l. rewrite app_nil_r in E1. simpl in E2. auto.
  - assert (l = []) by (apply (K y (x ++ [c]) d l t'); auto; now rewrite <- E2).
    subst l. rewrite app_nil_r in E1. simpl in E2. auto.
Qed.

Lemma token_last (tok : text) :
  isToken tok = true ->
  exists x c, tok = x ++ [c] /\ dotOrSpace c = false.
Proof.
  intros Ht. apply isToken_cases in Ht. destruct Ht as [Ht | [Ht | Ht]];
    token_shape Ht tok.
  - injection Ht as H1 H2 H3 H4. exists [c; c0; c1], c2. split; auto.
    eapply letter_not_dotOrSpace; eauto; lia.
  - injection Ht as H1 H2 H3. exists [c; c0], c1. split; auto.
    eapply letter_not_dotOrSpace; eauto; lia.
  - injection Ht as H1 H2 H3. exists [c; c0], c1. split; auto.
    eapply letter_not_dotOrSpace; eauto; lia.
Qed.

(** No token is a proper suffix of a token. *)
Lemma token_suffix (pre tok : text) :
  isToken tok = true -> isToken (pre ++ tok) = true -> pre = [].
Proof.
  intros Ht Hg. destruct pre as [|c pre]; [reflexivity|exfalso].
  apply isToken_cases in Ht, Hg. unfold toUpperCase in Hg.
  rewrite map_app in Hg. simpl in Hg. unfold toUpperCase in Ht.
  assert (L : forall l : text, l = map asciiUpper tok ->
            (asciiUpper c :: map asciiUpper pre ++ l = HIGH \/
             asciiUpper c :: map asciiUpper pre ++ l = MED \/
             asciiUpper c :: map asciiUpper pre ++ l = LOW) ->
            (l = HIGH \/ l = MED \/ l = LOW) -> False).
  { intros l _ H1 H2. unfold HIGH, MED, LOW in *.
    destruct H2 as [-> | [-> | ->]]; destruct H1 as [H1 | [H1 | H1]];
      (destruct pre as [|d pre];
       [ simpl in H1; discriminate H1
       | apply (f_equal (@List.length N)) in H1; simpl in H1;
         rewrite length_app in H1; simpl in H1; lia ]). }
  eapply L; eauto.
Qed.

(** The match is where the token is: start positions before it fail. *)
Lemma regexExec_token (pre tok tail : text) :
  isToken tok = true -> forallb dotOrSpace tail = true ->
  regexExec (pre ++ tok ++ tail)
  = Some {| before := pre; group1 := tok; trailing := tail |}.
Proof.
  intros Ht Hc. induction pre as [|c pre IH].
  - simpl app. destruct tok as [|t0 tok]; [discriminate|].
    simpl. change (t0 :: tok ++ tail) with ((t0 :: tok) ++ tail).
    now rewrite matchHere_complete.
  - simpl app. simpl regexExec.
    change (c :: pre ++ tok ++ tail) with ((c :: pre) ++ tok ++ tail).
    destruct (matchHere ((c :: pre) ++ tok ++ tail)) as [[g t]|] eqn:E.
    + exfalso. apply matchHere_sound in E as (E & Hg & Hc').
      destruct (token_last tok Ht) as (x & a & -> & Ha).
      destruct (token_last g Hg) as (y & b & -> & Hb).
      rewrite !app_assoc in E.
      rewrite <- (app_assoc (c :: pre)) in E.
      rewrite (app_assoc (c :: pre) x [a]) in E.
      apply class_suffix_unique in E as [E _]; auto.
      rewrite <- app_assoc in E.
      rewrite <- E in Hg.
      apply token_suffix in Hg; [discriminate | assumption].
    + simpl in IH. rewrite IH. reflexivity.
Qed.

Lemma regexExec_sound (s : text) (m : RegExpMatch) :
  regexExec s = Some m ->
  TrailingToken s (before m) (group1 m) (trailing m).
Proof.
  revert m; induction s as [|c s IH]; intros m.
  - simpl. discriminate.
  - simpl regexExec.
    destruct (matchHere (c :: s)) as [[g t]|] eqn:E.
    + intros H; injection H as <-. simpl.
      apply matchHere_sound in E. exact E.
    + destruct (regexExec s) as [m'|]; [|discriminate].
      intros H; injection H as <-. simpl.
      destruct (IH m' eq_refl) as (E1 & E2 & E3).
      repeat split; auto. simpl. now f_equal.
Qed.

Lemma regexExec_none (s : text) :
  regexExec s = None ->
  forall pre tok tail, ~ TrailingToken s pre tok tail.
Proof.
  intros H pre tok tail (E & Ht & Hc). subst s.
  rewrite regexExec_token in H; auto. discriminate.
Qed.

(** *** White space *)

Lemma trimEnd_blank (s : text) :
  forallb isWhiteSpace s = true -> trimEnd s = [].
Proof.
  induction s as [|c s IH]; simpl; [reflexivity|].
  intros H. apply andb_true_iff in H as [Hc H].
  now rewrite IH, Hc.
Qed.

Lemma words_blank (s : text) :
  forallb isWhiteSpace s = true -> words s = [].
Proof.
  induction s as [|c s IH]; simpl; [reflexivity|].
  intros H. apply andb_true_iff in H as [Hc H].
  rewrite Hc. auto.
Qed.

Lemma trimEnd_head (s : text) :
  forallb isWhiteSpace s = false ->
  exists c' s' t', s = c' :: s' /\ trimEnd s = c' :: t'.
Proof.
  destruct s as [|c' s']; simpl; [discriminate|].
  intros H. exists c', s'.
  destruct (trimEnd s') as [|x t] eqn:E.
  - destruct (isWhiteSpace c') eqn:Ec.
    + simpl in H. exfalso. revert H E. clear.
      induction s' as [|y s' IH]; simpl; [discriminate|].
      destruct (trimEnd s') as [|z u].
      * destruct (isWhiteSpace y); simpl; [auto|discriminate].
      * discriminate.
    + now exists [].
  - now exists (x :: t).
Qed.

Lemma words_nonblank (s : text) :
  forallb isWhiteSpace s = false -> words s <> [].
Proof.
  induction s as [|c s IH]; simpl; [discriminate|].
  destruct (isWhiteSpace c); simpl.
  - auto.
  - intros _. destruct s as [|c' s']; [discriminate|].
    destruct (isWhiteSpace c'); [discriminate|].
    destruct (words (c' :: s')); discriminate.
Qed.

Lemma unwords_cons (w : text) (ws : list text) :
  ws <> [] -> unwords (w :: ws) = w ++ 32 :: unwords ws.
Proof. destruct ws; [congruence | reflexivity]. Qed.

Lemma unwords_push (c : N) (w : text) (ws : list text) :
  unwords ((c :: w) :: ws) = c :: unwords (w :: ws).
Proof. destruct ws; reflexivity. Qed.

Lemma trimEnd_cons (c : N) (s : text) :
  trimEnd (c :: s)
  = match trimEnd s with
    | [] => if isWhiteSpace c then [] else [c]
    | x :: t => c :: x :: t
    end.
Proof. reflexivity. Qed.

Lemma collapse_cons2 (c c' : N) (t : text) :
  collapseWhiteSpace (c :: c' :: t)
  = if isWhiteSpace c then
      if isWhiteSpace c' then collapseWhiteSpace (c' :: t)
      else 32 :: collapseWhiteSpace (c' :: t)
    else c :: collapseWhiteSpace (c' :: t).
Proof. reflexivity. Qed.

Lemma words_cons2 (c c' : N) (s : text) :
  words (c :: c' :: s)
  = if isWhiteSpace c then words (c' :: s)
    else if isWhiteSpace c' then [c] :: words (c' :: s)
         else match words (c' :: s) with
              | w :: ws => (c :: w) :: ws
              | [] => [[c]]
              end.
Proof. reflexivity. Qed.

(** Collapsing after removing the final white space: the words joined by
    single spaces, led by one space when the text starts with white space. *)
Lemma collapse_trimEnd (s : text) :
  forallb isWhiteSpace s = false ->
  collapseWhiteSpace (trimEnd s)
  = match s with
    | c :: _ => if isWhiteSpace c then 32 :: singleSpaced s else singleSpaced s
    | [] => []
    end.
Proof.
  unfold singleSpaced.
  induction s as [|c s IH]; [discriminate|].
  intros Hs. destruct (forallb isWhiteSpace s) eqn:Eb.
  - assert (Hc : isWhiteSpace c = false).
    { simpl in Hs. rewrite Eb, andb_true_r in Hs. exact Hs. }
    rewrite trimEnd_cons, (trimEnd_blank s Eb), Hc.
    simpl collapseWhiteSpace. rewrite Hc.
    destruct s as [|c' s']; [simpl; now rewrite Hc|].
    rewrite words_cons2, Hc.
    assert (Ec' : isWhiteSpace c' = true).
    { simpl in Eb. now apply andb_true_iff in Eb as [Ec' _]. }
    rewrite Ec', (words_blank (c' :: s') Eb). reflexivity.
  - specialize (IH eq_refl).
    destruct (trimEnd_head s Eb) as (c' & s' & t' & -> & Et).
    rewrite trimEnd_cons, Et. rewrite Et in IH. cbv iota in IH. cbv iota.
    rewrite collapse_cons2, words_cons2.
    destruct (isWhiteSpace c) eqn:Hc.
    + destruct (isWhiteSpace c') eqn:Hc'.
      * exact IH.
      * now rewrite IH.
    + rewrite IH.
      assert (Hw := words_nonblank (c' :: s') Eb).
      destruct (isWhiteSpace c') eqn:Hc'.
      * now rewrite unwords_cons.
      * destruct (words (c' :: s')) as [|w ws] eqn:Ew; [congruence|].
        now rewrite unwords_push.
Qed.

Lemma words_trimStart (s : text) : words (trimStart s) = words s.
Proof.
  induction s as [|c s IH]; [reflexivity|].
  simpl trimStart. destruct (isWhiteSpace c) eqn:Hc.
  - rewrite IH. simpl. now rewrite Hc.
  - reflexivity.
Qed.

Lemma trimStart_head (s : text) :
  match trimStart s with
  | c :: _ => isWhiteSpace c = false
  | [] => forallb isWhiteSpace s = true
  end.
Proof.
  induction s as [|c s IH]; simpl; [reflexivity|].
  destruct (isWhiteSpace c) eqn:Hc; simpl; [exact IH | exact Hc].
Qed.

(** [trim] followed by the collapse is the single-spaced text. *)
Lemma collapse_trim (s : text) :
  collapseWhiteSpace (trim s) = singleSpaced s.
Proof.
  unfold trim, singleSpaced. rewrite <- words_trimStart.
  pose proof (trimStart_head s) as H.
  destruct (trimStart s) as [|c t] eqn:E.
  - reflexivity.
  - assert (Hb : forallb isWhiteSpace (c :: t) = false)
      by (simpl; now rewrite H).
    rewrite (collapse_trimEnd (c :: t) Hb). now rewrite H.
Qed.

(** *** The processor *)

Lemma severityOf_token (pre tok tail : text) :
  TrailingToken (pre ++ tok ++ tail) pre tok tail ->
  severityOf (pre ++ tok ++ tail) = toUpperCase tok.
Proof.
  intros (_ & Ht & Hc). unfold severityOf.
  now rewrite regexExec_token.
Qed.

Lemma speechTextOf_token (pre tok tail : text) :
  TrailingToken (pre ++ tok ++ tail) pre tok tail ->
  speechTextOf (pre ++ tok ++ tail) = singleSpaced pre.
Proof.
  intros (_ & Ht & Hc). unfold speechTextOf, replaceRegex.
  rewrite regexExec_token by assumption. simpl. apply collapse_trim.
Qed.

Lemma processHazardAnalysis_speech (analysis : text) :
  speechTextOf analysis <> [] ->
  processHazardAnalysis analysis
  = {| speechText := speechTextOf analysis; severity := severityOf analysis |}.
Proof.
  unfold processHazardAnalysis.
  destruct (speechTextOf analysis); [congruence | reflexivity].
Qed.

(** C4: the free-text parser.  Every input either ends with a severity
    token (HIGH, MED or LOW in any letter case, followed only by dots and
    white space) or does not.  When it does, the severity is the token in
    upper case and the speech text is what precedes the token, trimmed and
    with every run of white space collapsed to one space; when it does not,
    the severity is MED and the speech text is the whole input, normalised
    the same way.  A non-empty speech text is returned with that severity.
    The two examples of the specification are evaluated. *)
Theorem free_text_parse (analysis : text) :
  ((exists pre tok tail, TrailingToken analysis pre tok tail) \/
   (forall pre tok tail, ~ TrailingToken analysis pre tok tail)) /\
  (forall pre tok tail,
      TrailingToken analysis pre tok tail ->
      severityOf analysis = toUpperCase tok /\
      isToken (severityOf analysis) = true /\
      speechTextOf analysis = singleSpaced pre) /\
  ((forall pre tok tail, ~ TrailingToken analysis pre tok tail) ->
      severityOf analysis = MED /\
      speechTextOf analysis = singleSpaced analysis) /\
  (speechTextOf analysis <> [] ->
      processHazardAnalysis analysis
      = {| speechText := speechTextOf analysis;
           severity := severityOf analysis |}) /\
  processHazardAnalysis (str "STOP. Construction barriers ahead. HIGH")
  = {| speechText := str "STOP. Construction barriers ahead.";
       severity := str "HIGH" |} /\
  severity (processHazardAnalysis (str "Walk straight, clear path."))
  = str "MED".
Proof.
  split; [|split; [|split; [|split; [|split]]]].
  - destruct (regexExec analysis) as [m|] eqn:E.
    + left. exists (before m), (group1 m), (trailing m).
      now apply regexExec_sound.
    + right. now apply regexExec_none.
  - intros pre tok tail T. pose proof T as (-> & Ht & Hc).
    rewrite (severityOf_token _ _ _ T), (speechTextOf_token _ _ _ T).
    repeat split.
    apply isToken_cases in Ht. apply isToken_cases.
    unfold toUpperCase in *. unfold HIGH, MED, LOW in *.
    destruct Ht as [-> | [-> | ->]]; simpl; auto.
  - intros H. split.
    + unfold severityOf. destruct (regexExec analysis) as [m|] eqn:E;
        [|reflexivity].
      apply regexExec_sound in E. now apply H in E.
    + unfold speechTextOf, replaceRegex.
      destruct (regexExec analysis) as [m|] eqn:E.
      * apply regexExec_sound in E. now apply H in E.
      * apply collapse_trim.
  - apply processHazardAnalysis_speech.
  - reflexivity.
  - reflexivity.
Qed.

Lemma free_text_parse_witness :
  severityOf (str "slow.  Wet floor   ahead. low. ") = str "LOW" /\
  speechTextOf (str "slow.  Wet floor   ahead. low. ")
  = str "slow. Wet floor ahead.".
Proof.
  destruct (free_text_parse (str "slow.  Wet floor   ahead. low. "))
    as (_ & H & _).
  destruct (H (str "slow.  Wet floor   ahead. ") (str "low") (str ". "))
    as (H1 & _ & H2).
  - repeat split.
  - split; [exact H1 | exact H2].
Defined.

(** C9: when nothing is left of the text once the token is stripped, the
    processor answers with the fixed phrase (written "Unable to analyze
    image properly" in the code) and severity MED; so every result of
    [processHazardAnalysis] has a non-empty speech text. *)
Theorem empty_speech_fallback (analysis : text) :
  (speechTextOf analysis = [] ->
     processHazardAnalysis analysis
     = {| speechText := str "Unable to analyze image properly";
          severity := str "MED" |}) /\
  speechText (processHazardAnalysis analysis) <> [].
Proof.
  unfold processHazardAnalysis. split.
  - intros ->. reflexivity.
  - destruct (speechTextOf analysis); simpl; discriminate.
Qed.

Lemma empty_speech_fallback_witness :
  processHazardAnalysis (str " high. ")
  = {| speechText := str "Unable to analyze image properly";
       severity := str "MED" |}.
Proof.
  apply (proj1 (empty_speech_fallback (str " high. "))). reflexivity.
Defined.

(** C10: the token needs no word boundary.  Whenever the last characters
    of the input spell HIGH, MED or LOW in any letter case, whatever
    precedes them, they are the severity token: the severity is their
    upper-case form and the speech text is the normalised remainder, the
    stem of the word they ended. *)
Theorem token_without_word_boundary (stem tok : text) :
  isToken tok = true ->
  severityOf (stem ++ tok) = toUpperCase tok /\
  speechTextOf (stem ++ tok) = singleSpaced stem /\
  (singleSpaced stem <> [] ->
   processHazardAnalysis (stem ++ tok)
   = {| speechText := singleSpaced stem; severity := toUpperCase tok |}).
Proof.
  intros Ht.
  assert (T : TrailingToken (stem ++ tok ++ []) stem tok []).
  { repeat split; auto. }
  pose proof (severityOf_token _ _ _ T) as H1.
  pose proof (speechTextOf_token _ _ _ T) as H2.
  rewrite app_nil_r in H1, H2.
  repeat split; auto.
  intros Hs. rewrite processHazardAnalysis_speech; rewrite H2; auto.
  now rewrite H1.
Qed.

Lemma token_without_word_boundary_witness :
  processHazardAnalysis (str "Go left, ask AHMED")
  = {| speechText := str "Go left, ask AH"; severity := str "MED" |} /\
  processHazardAnalysis (str "Pain in the THIGH")
  = {| speechText := str "Pain in the T"; severity := str "HIGH" |}.
Proof.
  split.
  - apply (token_without_word_boundary (str "Go left, ask AH") (str "MED"));
      [reflexivity | discriminate].
  - apply (token_without_word_boundary (str "Pain in the T") (str "HIGH"));
      [reflexivity | discriminate].
Defined.

End ProcessorFacts.

(** ** The structured-JSON entry point *)

Section DetectFacts.
Import Detect.

Variables upperTable foldTable : N -> N.
Variable DecodeString : text -> string + list Byte.byte.
Variable GenerateContent : text -> list Byte.byte -> string + list Candidate.
Variable API_KEY : string.
Variables loggingClient genaiClient : bool.

Local Abbreviation ToUpper := (Detect.ToUpper upperTable).
Local Abbreviation safeguardSeverity := (Detect.safeguardSeverity upperTable).
Local Abbreviation UnmarshalDetection := (Detect.UnmarshalDetection foldTable).
Local Abbreviation DetectHazards :=
  (Detect.DetectHazards upperTable foldTable DecodeString GenerateContent
     API_KEY loggingClient genaiClient).
Local Abbreviation ModelAnswers :=
  (Detect.ModelAnswers foldTable DecodeString GenerateContent
     API_KEY loggingClient genaiClient).

(** *** The string functions against the words of the specification *)

Lemma HasPrefix_StartsWith (s keyword : text) :
  HasPrefix s keyword = true <-> Engine.StartsWith keyword s.
Proof.
  unfold Engine.StartsWith. revert s.
  induction keyword as [|p keyword IH]; intros s.
  - split; [intros _; now exists s | reflexivity].
  - destruct s as [|c s]; cbn [HasPrefix].
    + split; [discriminate | intros [rest E]; discriminate E].
    + rewrite andb_true_iff, N.eqb_eq, IH. split.
      * intros [-> [rest ->]]. now exists rest.
      * intros [rest E]. injection E as -> ->. split; [reflexivity|].
        now exists rest.
Qed.

Lemma unicode_ToUpper_UpperOf (c : N) :
  Engine.UpperOf upperTable c (unicode_ToUpper upperTable c).
Proof.
  unfold unicode_ToUpper.
  destruct (c <=? 127) eqn:E1.
  - apply N.leb_le in E1.
    destruct ((97 <=? c) && (c <=? 122)) eqn:E2.
    + apply andb_true_iff in E2 as [L H].
      apply N.leb_le in L. apply N.leb_le in H. now constructor.
    + apply andb_false_iff in E2. constructor 2; [|exact E1].
      destruct E2 as [E2 | E2]; apply N.leb_gt in E2; lia.
  - apply N.leb_gt in E1. now constructor 3.
Qed.

Lemma UpperOf_unicode_ToUpper (c u : N) :
  Engine.UpperOf upperTable c u -> u = unicode_ToUpper upperTable c.
Proof.
  unfold unicode_ToUpper. intros [c' L H | c' O A | c' T].
  - assert (E : (c' <=? 127) = true) by (apply N.leb_le; lia).
    apply N.leb_le in L. apply N.leb_le in H. now rewrite E, L, H.
  - apply N.leb_le in A. rewrite A.
    destruct O as [O | O].
    + apply N.leb_gt in O. now rewrite O.
    + apply N.leb_gt in O. now rewrite O, andb_false_r.
  - apply N.leb_gt in T. now rewrite T.
Qed.

Lemma UpperCased_ToUpper (s upper : text) :
  Engine.UpperCased upperTable s upper <-> upper = ToUpper s.
Proof.
  unfold Engine.UpperCased, Detect.ToUpper. split.
  - induction 1 as [|c u s upper Hc _ IH]; [reflexivity|].
    cbn [map]. now rewrite <- IH, <- (UpperOf_unicode_ToUpper c u Hc).
  - intros ->. induction s as [|c s IH]; constructor;
      [apply unicode_ToUpper_UpperOf | exact IH].
Qed.

Lemma Begins_HasPrefix (keyword : string) (s : text) :
  Engine.Begins upperTable keyword s
  <-> HasPrefix (ToUpper s) (str keyword) = true.
Proof.
  unfold Engine.Begins. rewrite HasPrefix_StartsWith. split.
  - intros (upper & U & S). apply UpperCased_ToUpper in U. now subst upper.
  - intros S. exists (ToUpper s). split; [now apply UpperCased_ToUpper | exact S].
Qed.

(** A text that starts with STOP starts neither with CAUTION nor with
    SLOW. *)
Lemma keywords_apart (u : text) :
  HasPrefix u (str "STOP") = true ->
  HasPrefix u (str "CAUTION") || HasPrefix u (str "SLOW") = false.
Proof.
  intros H. apply HasPrefix_StartsWith in H as [rest ->]. reflexivity.
Qed.

(** C2: the rules of the escalation engine, for every declared severity
    and every text.  A declared HIGH is reported as HIGH and a declared
    MEDIUM as MEDIUM, whatever the text is.  With any other declaration the
    text decides, upper-cased for the comparison: HIGH when it starts with
    STOP, MEDIUM when it starts with CAUTION or with SLOW, LOW when it
    starts with none of the three.  The rules never disagree where two of
    them apply (no text starts with STOP and with CAUTION or SLOW), so
    reading them top to bottom gives this answer. *)
Theorem safeguardSeverity_rules
    (hazards : list Hazard) (declared safeDirection : text) :
  let answer := safeguardSeverity {| Hazards := hazards; Severity := declared;
                                     SafeDirection := safeDirection |} in
  let begins := fun keyword => Engine.Begins upperTable keyword safeDirection in
  (declared = str "HIGH" -> answer = str "HIGH") /\
  (declared = str "MEDIUM" -> answer = str "MEDIUM") /\
  (declared <> str "HIGH" -> declared <> str "MEDIUM" ->
   (begins "STOP"%string -> answer = str "HIGH") /\
   (begins "CAUTION"%string \/ begins "SLOW"%string -> answer = str "MEDIUM") /\
   (~ begins "STOP"%string -> ~ begins "CAUTION"%string ->
    ~ begins "SLOW"%string -> answer = str "LOW")).
Proof.
  intros answer begins. subst answer begins.
  unfold Detect.safeguardSeverity. cbn [Severity SafeDirection].
  split; [|split].
  - intros ->. reflexivity.
  - intros ->. reflexivity.
  - intros H1 H2.
    destruct (Text.eqb declared (str "HIGH")) eqn:E1;
      [apply eqb_eq in E1; contradiction|].
    destruct (Text.eqb declared (str "MEDIUM")) eqn:E2;
      [apply eqb_eq in E2; contradiction|].
    rewrite !Begins_HasPrefix.
    destruct (HasPrefix (ToUpper safeDirection) (str "STOP")) eqn:S.
    + split; [reflexivity|]. split.
      * intros K.
        pose proof (keywords_apart _ S) as A.
        apply orb_false_iff in A as [A1 A2].
        destruct K as [K | K]; congruence.
      * intros K. now contradiction K.
    + split; [discriminate|]. split.
      * intros K.
        assert (O : HasPrefix (ToUpper safeDirection) (str "CAUTION")
                    || HasPrefix (ToUpper safeDirection) (str "SLOW") = true)
          by (apply orb_true_iff; exact K).
        now rewrite O.
      * intros _ K1 K2.
        apply not_true_is_false in K1. apply not_true_is_false in K2.
        now rewrite K1, K2.
Qed.

(** The engine answers with one of three words. *)
Lemma safeguardSeverity_range (d : HazardDetection) :
  safeguardSeverity d = str "HIGH" \/ safeguardSeverity d = str "MEDIUM"
  \/ safeguardSeverity d = str "LOW".
Proof.
  unfold Detect.safeguardSeverity.
  destruct (Text.eqb (Severity d) (str "HIGH")); auto.
  destruct (Text.eqb (Severity d) (str "MEDIUM")); auto.
  destruct (HasPrefix _ (str "STOP")); auto.
  destruct (_ || _); auto.
Qed.

(** C3: the engine is a function of the pair (declared severity, text)
    alone, and running it again on its own answer with the same text
    answers the same. *)
Theorem safeguardSeverity_idempotent
    (hazards hazards' : list Hazard) (declared safeDirection : text) :
  let first := safeguardSeverity {| Hazards := hazards; Severity := declared;
                                    SafeDirection := safeDirection |} in
  safeguardSeverity {| Hazards := hazards'; Severity := declared;
                       SafeDirection := safeDirection |} = first /\
  safeguardSeverity {| Hazards := hazards; Severity := first;
                       SafeDirection := safeDirection |} = first.
Proof.
  intros first. subst first.
  unfold Detect.safeguardSeverity. cbn [Severity SafeDirection].
  split; [reflexivity|].
  destruct (Text.eqb declared (str "HIGH")); [reflexivity|].
  destruct (Text.eqb declared (str "MEDIUM")); [reflexivity|].
  destruct (HasPrefix (ToUpper safeDirection) (str "STOP")); [reflexivity|].
  destruct (HasPrefix (ToUpper safeDirection) (str "CAUTION")
            || HasPrefix (ToUpper safeDirection) (str "SLOW"));
    reflexivity.
Qed.

(** A keyword in ASCII found by ASCII upper-casing is found by [ToUpper]. *)
Lemma beginsWith_ToUpper (keyword s : text) :
  forallb (fun p => p <=? 127) keyword = true ->
  Invariant.beginsWith keyword s = true ->
  HasPrefix (ToUpper s) keyword = true.
Proof.
  unfold Invariant.beginsWith.
  revert s; induction keyword as [|p keyword IH]; intros s Hk H;
    [reflexivity|].
  simpl in Hk. apply andb_true_iff in Hk as [Hp Hk].
  destruct s as [|c s]; simpl in *; [discriminate|].
  apply andb_true_iff in H as [Hc H].
  rewrite (IH s Hk H), andb_true_r.
  apply N.eqb_eq in Hc. apply N.leb_le in Hp. apply N.eqb_eq.
  unfold unicode_ToUpper. unfold asciiUpper in Hc.
  destruct ((97 <=? c) && (c <=? 122)) eqn:E.
  - apply andb_true_iff in E as [E1 E2]. apply N.leb_le in E2.
    destruct (c <=? 127) eqn:E3; [exact Hc|]. apply N.leb_gt in E3. lia.
  - subst p. apply N.leb_le in Hp. now rewrite Hp.
Qed.

Lemma safeguardSeverity_invariant (d : HazardDetection) :
  Invariant.holds (SafeDirection d) (safeguardSeverity d).
Proof.
  unfold Invariant.holds, Detect.safeguardSeverity. split.
  - intros H. apply beginsWith_ToUpper in H; [|reflexivity].
    rewrite H.
    destruct (Text.eqb (Severity d) (str "HIGH")); [reflexivity|].
    destruct (Text.eqb (Severity d) (str "MEDIUM")); reflexivity.
  - intros H.
    assert (K : HasPrefix (ToUpper (SafeDirection d)) (str "CAUTION")
                || HasPrefix (ToUpper (SafeDirection d)) (str "SLOW") = true).
    { apply orb_true_iff.
      destruct H as [H | H]; [left | right];
        (apply beginsWith_ToUpper; [reflexivity | exact H]). }
    rewrite K.
    destruct (Text.eqb (Severity d) (str "HIGH")); [reflexivity|].
    destruct (Text.eqb (Severity d) (str "MEDIUM")); [reflexivity|].
    destruct (HasPrefix _ (str "STOP")); reflexivity.
Qed.

(** What [DetectHazards] answers once the model has answered. *)
Lemma DetectHazards_answer (r : Request) (jsonStr : JsonText) :
  ModelAnswers r jsonStr ->
  DetectHazards r
  = match UnmarshalDetection jsonStr with
    | None => Responded 500 (ErrorPayload "Error unmarshaling JSON")
    | Some detection =>
        Responded 200
          (DetectionPayload
             {| SpeechText := SafeDirection detection;
                ResponseSeverity := safeguardSeverity detection |})
    end.
Proof.
  intros (Hl & Hm & Hk & Hg & req & img & fmt & c & cs & parts
          & Hreq & Himg & Hgen & Hc).
  unfold Detect.DetectHazards.
  rewrite Hl, Hm, Hk, Hreq, Himg, Hg, Hgen, Hc. reflexivity.
Qed.

(** A detection payload only comes from a model answer that decodes. *)
Lemma DetectHazards_detection (r : Request) (code : N)
    (response : HazardDetectionResponse) :
  DetectHazards r = Responded code (DetectionPayload response) ->
  exists jsonStr detection,
    ModelAnswers r jsonStr /\
    UnmarshalDetection jsonStr = Some detection /\
    code = 200 /\
    response = {| SpeechText := SafeDirection detection;
                  ResponseSeverity := safeguardSeverity detection |}.
Proof.
  unfold Detect.DetectHazards, Detect.ModelAnswers, respondWithError.
  destruct loggingClient; simpl negb; cbv iota; [|discriminate].
  destruct (String.eqb (Method r) "OPTIONS") eqn:Eo; [discriminate|].
  destruct (String.eqb (Method r) "POST") eqn:Ep; simpl negb; cbv iota;
    [|discriminate].
  destruct (validateAPIKey API_KEY r) eqn:Ek; simpl negb; cbv iota;
    [|discriminate].
  destruct (DecodeRequest foldTable (Body r)) as [req|] eqn:Er; [|discriminate].
  destruct (processBase64Image DecodeString (Image req)) as [e|[img fmt]] eqn:Ei;
    [discriminate|].
  destruct genaiClient; simpl negb; cbv iota; [|discriminate].
  destruct (GenerateContent fmt img) as [e|[|c cs]] eqn:Eg;
    try discriminate.
  destruct (Content c) as [[|[jsonStr|] parts]|] eqn:Ec; try discriminate.
  destruct (UnmarshalDetection jsonStr) as [d|] eqn:Eu; [|discriminate].
  intros H. injection H as <- <-.
  exists jsonStr, d. apply String.eqb_eq in Ep.
  repeat split; auto.
  exists req, img, fmt, c, cs, parts. auto.
Qed.

Lemma detectionMembers_lacking (members : list (text * json))
    (d0 d : HazardDetection) :
  detectionMembers foldTable members d0 = Some d ->
  lacksField foldTable (str "severity") members = true ->
  lacksField foldTable (str "safe_direction") members = true ->
  Severity d = Severity d0 /\ SafeDirection d = SafeDirection d0.
Proof.
  revert d0; induction members as [|[key v] members IH]; intros d0.
  - simpl. intros H _ _. injection H as <-. now split.
  - cbn [detectionMembers lacksField forallb fst].
    intros H H1 H2.
    apply andb_true_iff in H1 as [K1 H1]. apply andb_true_iff in H2 as [K2 H2].
    apply negb_true_iff in K1, K2. rewrite K1, K2 in H.
    destruct (sameField foldTable (str "hazards") key).
    + destruct (intoHazards foldTable v) as [hs|];
        [|discriminate].
      cbn [option_map] in H.
      destruct (IH _ H H1 H2) as [E1 E2]. now split.
    + now apply IH.
Qed.

(** C7, as the code has it: once the model has answered, a text that is
    not JSON, or that does not decode into the detection record, is
    answered with status 500 and the message "Error unmarshaling JSON", and
    a detection payload is only written for an answer that decodes.  An
    object without the members [severity] and [safe_direction] is no
    error: both fields stay empty and the answer is status 200 with an
    empty speech text and severity LOW. *)
Theorem model_output_decoding (r : Request) (jsonStr : JsonText) :
  ModelAnswers r jsonStr ->
  (jsonStr = SyntaxError \/ UnmarshalDetection jsonStr = None ->
   DetectHazards r = Responded 500 (ErrorPayload "Error unmarshaling JSON")) /\
  (forall code response,
      DetectHazards r = Responded code (DetectionPayload response) ->
      UnmarshalDetection jsonStr <> None) /\
  (forall members detection,
      jsonStr = Value (JObject members) ->
      lacksField foldTable (str "severity") members = true ->
      lacksField foldTable (str "safe_direction") members = true ->
      UnmarshalDetection jsonStr = Some detection ->
      DetectHazards r
      = Responded 200
          (DetectionPayload {| SpeechText := [];
                               ResponseSeverity := str "LOW" |})).
Proof.
  intros HA. pose proof (DetectHazards_answer r jsonStr HA) as E.
  split; [|split].
  - intros [-> | H]; rewrite E; [reflexivity | now rewrite H].
  - intros code response H. rewrite E in H.
    destruct (UnmarshalDetection jsonStr); [discriminate | discriminate].
  - intros members d -> H1 H2 Hd. rewrite E, Hd.
    cbn [Detect.UnmarshalDetection] in Hd.
    destruct (detectionMembers_lacking _ _ _ Hd H1 H2) as [E1 E2].
    unfold Detect.safeguardSeverity. rewrite E1, E2. reflexivity.
Qed.

(** C1, as the code has it.  On the structured-JSON path every detection
    payload satisfies the invariant: its severity is not LOW when its
    speech text begins with STOP in any letter case, and is MEDIUM or HIGH
    when it begins with CAUTION or SLOW.  The free-text path escalates
    nothing: it reports the severity of the trailing token (MED without
    one), and MED with the fallback phrase. *)
Theorem severity_invariant_structured :
  (forall (r : Request) (code : N) (response : HazardDetectionResponse),
      DetectHazards r = Responded code (DetectionPayload response) ->
      Invariant.holds (SpeechText response) (ResponseSeverity response)) /\
  (forall analysis : text,
      Processor.severity (Processor.processHazardAnalysis analysis)
      = match Processor.speechTextOf analysis with
        | [] => Processor.MED
        | _ => Processor.severityOf analysis
        end).
Proof.
  split.
  - intros r code response H.
    apply DetectHazards_detection in H as (jsonStr & d & _ & _ & _ & ->).
    apply safeguardSeverity_invariant.
  - intros analysis. unfold Processor.processHazardAnalysis.
    destruct (Processor.speechTextOf analysis); reflexivity.
Qed.

End DetectFacts.

Lemma safeguardSeverity_rules_witness :
  Detect.safeguardSeverity Examples.plainTable
    {| Detect.Hazards := []; Detect.Severity := str "LOW";
       Detect.SafeDirection := str "stop, Elevator ahead." |}
  = str "HIGH" /\
  Detect.safeguardSeverity Examples.plainTable
    {| Detect.Hazards := []; Detect.Severity := [];
       Detect.SafeDirection := str "Slow down, wet floor." |}
  = str "MEDIUM" /\
  Detect.safeguardSeverity Examples.plainTable
    {| Detect.Hazards := []; Detect.Severity := str "medium";
       Detect.SafeDirection := str "Path is clear, stop at the kerb." |}
  = str "LOW" /\
  Detect.safeguardSeverity Examples.plainTable
    {| Detect.Hazards := []; Detect.Severity := str "MEDIUM";
       Detect.SafeDirection := str "STOP. Stairs ahead." |}
  = str "MEDIUM".
Proof.
  split; [|split; [|split]].
  - refine (proj1 (proj2 (proj2 (safeguardSeverity_rules Examples.plainTable []
              (str "LOW") (str "stop, Elevator ahead.")))
              _ _) _); try discriminate.
    apply Begins_HasPrefix. reflexivity.
  - refine (proj1 (proj2 (proj2 (proj2 (safeguardSeverity_rules
              Examples.plainTable [] [] (str "Slow down, wet floor.")))
              _ _)) _); try discriminate.
    right. apply Begins_HasPrefix. reflexivity.
  - refine (proj2 (proj2 (proj2 (proj2 (safeguardSeverity_rules
              Examples.plainTable [] (str "medium")
              (str "Path is clear, stop at the kerb.")))
              _ _)) _ _ _); try discriminate;
      rewrite Begins_HasPrefix; discriminate.
  - refine (proj1 (proj2 (safeguardSeverity_rules Examples.plainTable []
              (str "MEDIUM") (str "STOP. Stairs ahead."))) _).
    reflexivity.
Defined.

Lemma model_output_decoding_witness :
  Detect.DetectHazards Examples.plainTable Examples.plainTable
    Examples.strictBase64
    (Examples.modelAnswering
       (Detect.Value
          (Detect.JObject [(str "hazards", Detect.JArray [])])))
    "secret" true true Examples.imageRequest
  = Detect.Responded 200
      (Detect.DetectionPayload
         {| Detect.SpeechText := []; Detect.ResponseSeverity := str "LOW" |}).
Proof.
  refine (proj2 (proj2 (model_output_decoding
    Examples.plainTable Examples.plainTable Examples.strictBase64
    (Examples.modelAnswering _) "secret" true true Examples.imageRequest
    (Detect.Value (Detect.JObject [(str "hazards", Detect.JArray [])])) _))
    [(str "hazards", Detect.JArray [])]
    {| Detect.Hazards := []; Detect.Severity := [];
       Detect.SafeDirection := [] |}
    eq_refl eq_refl eq_refl eq_refl).
  unfold Detect.ModelAnswers. repeat split.
  exists {| Detect.Image := str "aGVsbG8=" |}.
  eexists. eexists. eexists. eexists. eexists.
  repeat split; vm_compute; reflexivity.
Defined.

(** C7, counterexample: the model answers with the object without any
    member; the required fields are absent and the response is a success. *)
Lemma absent_fields_succeed :
  Detect.DetectHazards Examples.plainTable Examples.plainTable
    Examples.strictBase64
    (Examples.modelAnswering (Detect.Value (Detect.JObject [])))
    "secret" true true Examples.imageRequest
  = Detect.Responded 200
      (Detect.DetectionPayload
         {| Detect.SpeechText := []; Detect.ResponseSeverity := str "LOW" |}).
Proof. vm_compute. reflexivity. Qed.

Lemma severity_invariant_structured_witness :
  Invariant.holds (str "stop, Elevator ahead. Wait for elevator") (str "HIGH").
Proof.
  refine (proj1 (severity_invariant_structured
    Examples.plainTable Examples.plainTable Examples.strictBase64
    (Examples.modelAnswering
       (Detect.Value
          (Detect.JObject
             [(str "severity", Detect.JString (str "LOW"));
              (str "safe_direction",
               Detect.JString (str "stop, Elevator ahead. Wait for elevator"))])))
    "secret" true true)
    Examples.imageRequest 200
    {| Detect.SpeechText := str "stop, Elevator ahead. Wait for elevator";
       Detect.ResponseSeverity := str "HIGH" |} _).
  vm_compute. reflexivity.
Defined.

(** C1, counterexample: on the free-text path the model's text
    "STOP. Wall ahead. LOW" is answered with a speech text that begins with
    STOP and severity LOW. *)
Lemma free_text_stop_low :
  HazardService.handleDetectHazards Examples.lenientBase64
    (fun _ => inr (Some [HazardService.TextPart (str "STOP. Wall ahead. LOW")]))
    (Some {| HazardService.image := Some (str "aGVsbG8=") |})
  = {| HazardService.status := 200;
       HazardService.json :=
         HazardService.ResultJson
           {| Processor.speechText := str "STOP. Wall ahead.";
              Processor.severity := str "LOW" |} |} /\
  ~ Invariant.holds (str "STOP. Wall ahead.") (str "LOW").
Proof.
  split.
  - vm_compute. reflexivity.
  - intros [H _]. specialize (H eq_refl). discriminate H.
Qed.

(** ** The image payload *)

Section ImageFacts.
Import Detect.

Variable bufferFromBase64 : text -> list Byte.byte.
Variable generateContent :
  HazardService.InlineData
  -> HazardService.Thrown + option (list HazardService.Part).
Variable DecodeString : text -> string + list Byte.byte.

Local Abbreviation validateImageData :=
  (HazardService.validateImageData bufferFromBase64).
Local Abbreviation detectHazardsInImage :=
  (HazardService.detectHazardsInImage bufferFromBase64 generateContent).
Local Abbreviation processBase64Image :=
  (Detect.processBase64Image DecodeString).

Lemma Split_without (s : text) (sep : N) :
  ~ In sep s -> Split s sep = [s].
Proof.
  induction s as [|c s IH]; simpl; [reflexivity|].
  intros H. destruct (c =? sep) eqn:E.
  - apply N.eqb_eq in E. exfalso. apply H. now left.
  - rewrite IH; [reflexivity|]. intros K. apply H. now right.
Qed.

Lemma Split_at (a b : text) (sep : N) :
  ~ In sep a -> Split (a ++ sep :: b) sep = a :: Split b sep.
Proof.
  induction a as [|c a IH]; simpl.
  - intros _. now rewrite N.eqb_refl.
  - intros H. destruct (c =? sep) eqn:E.
    + apply N.eqb_eq in E. exfalso. apply H. now left.
    + rewrite IH; [reflexivity|]. intros K. apply H. now right.
Qed.

Lemma HasPrefix_app (prefix s : text) : HasPrefix (prefix ++ s) prefix = true.
Proof.
  induction prefix as [|p prefix IH]; simpl; [reflexivity|].
  now rewrite N.eqb_refl, IH.
Qed.

Lemma TrimPrefix_app (prefix s : text) : TrimPrefix (prefix ++ s) prefix = s.
Proof.
  unfold TrimPrefix. rewrite HasPrefix_app.
  induction prefix as [|p prefix IH]; simpl; auto.
Qed.

(** An input without a comma is decoded as it is and tagged "jpeg". *)
Lemma processBase64Image_bare (base64Image : text) :
  ~ In 44 base64Image ->
  processBase64Image base64Image
  = match DecodeString base64Image with
    | inl err => inl (DecodeFailed err)
    | inr imageData => inr (imageData, str "jpeg")
    end.
Proof.
  intros Hc. unfold Detect.processBase64Image.
  rewrite (Split_without _ _ Hc).
  destruct (DecodeString base64Image); reflexivity.
Qed.

(** C8: the image payload is checked by two functions, and neither has
    all of the four properties.

    [validateImageData] (TypeScript) throws on the empty string and on
    every payload whose decoded length is above 4 * 1024 * 1024 bytes, and
    lets every other payload pass.  It knows no data URI: whatever it lets
    pass goes to the model whole, tagged image/jpeg.

    [processBase64Image] (Go) decodes an input without a comma as it is
    and tags it "jpeg", and accepts an input of the form
    data:image/<format>;base64,<payload> with the bytes of the payload and
    the format it declares.  It refuses no input for being empty and none
    for its size: the empty string is handed to the decoder like every
    other input without a comma, and what the decoder returns is returned,
    whatever its length. *)
Theorem image_payload_validation :
  validateImageData [] = inl (HazardService.ErrorObj "Image data is empty") /\
  (forall imageData,
      imageData <> [] ->
      HazardService.MAX_IMAGE_SIZE
      < N.of_nat (List.length (bufferFromBase64 imageData)) ->
      validateImageData imageData
      = inl (HazardService.ErrorObj "Image size exceeds maximum limit of 4MB")) /\
  (forall imageData,
      imageData <> [] ->
      N.of_nat (List.length (bufferFromBase64 imageData))
      <= HazardService.MAX_IMAGE_SIZE ->
      validateImageData imageData = inr tt) /\
  (forall imageData,
      validateImageData imageData = inr tt ->
      detectHazardsInImage imageData
      = match generateContent {| HazardService.data := imageData;
                                 HazardService.mimeType := "image/jpeg" |} with
        | inl e => inl e
        | inr None =>
            inl (HazardService.ErrorObj "Invalid response format from Vertex AI")
        | inr (Some parts) =>
            inr (HazardService.join [32] (HazardService.textsOf parts))
        end) /\
  (forall base64Image,
      ~ In 44 base64Image ->
      processBase64Image base64Image
      = match DecodeString base64Image with
        | inl err => inl (DecodeFailed err)
        | inr imageData => inr (imageData, str "jpeg")
        end) /\
  (forall format payload imageData,
      ~ In 44 format -> ~ In 59 format -> ~ In 44 payload ->
      DecodeString payload = inr imageData ->
      processBase64Image
        (str "data:image/" ++ format ++ str ";base64," ++ payload)
      = inr (imageData, format)) /\
  processBase64Image []
  = match DecodeString [] with
    | inl err => inl (DecodeFailed err)
    | inr imageData => inr (imageData, str "jpeg")
    end.
Proof.
  split; [reflexivity|]. split; [|split; [|split; [|split; [|split]]]].
  - intros imageData Hne Hsize. unfold HazardService.validateImageData.
    destruct imageData as [|c s]; [congruence|].
    apply N.ltb_lt in Hsize. now rewrite Hsize.
  - intros imageData Hne Hsize. unfold HazardService.validateImageData.
    destruct imageData as [|c s]; [congruence|].
    apply N.ltb_ge in Hsize. now rewrite Hsize.
  - intros imageData Hv. unfold HazardService.detectHazardsInImage.
    now rewrite Hv.
  - exact processBase64Image_bare.
  - intros format payload imageData H1 H2 H3 Hd.
    unfold Detect.processBase64Image.
    assert (E : str "data:image/" ++ format ++ str ";base64," ++ payload
                = (str "data:image/" ++ format ++ str ";base64")
                  ++ 44 :: payload).
    { rewrite <- !app_assoc. reflexivity. }
    rewrite E, Split_at, (Split_without payload 44 H3).
    + assert (E2 : str "data:image/" ++ format ++ str ";base64"
                   = (str "data:image/" ++ format) ++ 59 :: str "base64").
      { rewrite <- !app_assoc. reflexivity. }
      rewrite E2, Split_at.
      * rewrite (Split_without (str "base64") 59).
        -- rewrite HasPrefix_app, TrimPrefix_app, Hd. reflexivity.
        -- vm_compute. intuition discriminate.
      * intros K. apply in_app_or in K as [K | K]; [|tauto].
        vm_compute in K. intuition discriminate.
    + intros K. apply in_app_or in K as [K | K].
      * vm_compute in K. intuition discriminate.
      * apply in_app_or in K as [K | K]; [tauto|].
        vm_compute in K. intuition discriminate.
  - apply processBase64Image_bare. intros [].
Qed.

End ImageFacts.

(** *** The long payload under the two example decoders *)

Lemma longPayload_succ (groups : N) :
  Examples.longPayload (N.succ groups)
  = Examples.quad (Examples.longPayload groups).
Proof. unfold Examples.longPayload. apply N.iter_succ. Qed.

(** The lenient decoder makes three bytes of every group of the long
    payload. *)
Lemma lenientBase64_longPayload (groups : N) :
  N.of_nat (List.length (Examples.lenientBase64 (Examples.longPayload groups)))
  = 3 * groups.
Proof.
  unfold Examples.lenientBase64.
  induction groups as [|k IH] using N.peano_ind; [reflexivity|].
  rewrite longPayload_succ. unfold Examples.quad at 1.
  cbn [Examples.lenientSextets Examples.nodeSextet Examples.sextet N.eqb N.leb
       N.compare Pos.eqb Pos.compare Pos.compare_cont andb].
  cbn [Examples.octets List.length].
  rewrite !Nat2N.inj_succ, IH. lia.
Qed.

(** So does the strict decoder, wherever the payload stands in its
    input. *)
Lemma scanQuanta_longPayload (groups si len : N) :
  exists vs,
    Examples.scanQuanta (Examples.longPayload groups) si len (Examples.Quantum 0)
    = inr vs /\
    N.of_nat (List.length (Examples.octets vs)) = 3 * groups.
Proof.
  revert si. induction groups as [|k IH] using N.peano_ind; intros si.
  - exists []. split; reflexivity.
  - destruct (IH (si + 1 + 1 + 1 + 1)) as (vs & E & L).
    exists (0 :: 0 :: 0 :: 0 :: vs). split.
    + rewrite longPayload_succ. unfold Examples.quad.
      cbn [Examples.scanQuanta Examples.sextet N.eqb N.leb N.compare N.add
           N.sub Pos.eqb Pos.compare Pos.compare_cont Pos.add Pos.succ
           andb orb].
      now rewrite E.
    + cbn [Examples.octets List.length].
      rewrite !Nat2N.inj_succ, L. lia.
Qed.

Lemma strictBase64_longPayload (groups : N) :
  exists imageData,
    Examples.strictBase64 (Examples.longPayload groups) = inr imageData /\
    N.of_nat (List.length imageData) = 3 * groups.
Proof.
  unfold Examples.strictBase64.
  destruct (scanQuanta_longPayload groups 0
              (N.of_nat (List.length (Examples.longPayload groups))))
    as (vs & E & L).
  exists (Examples.octets vs). now rewrite E.
Qed.

Lemma longPayload_without_comma (groups : N) :
  ~ In 44 (Examples.longPayload groups).
Proof.
  induction groups as [|k IH] using N.peano_ind; [intros []|].
  rewrite longPayload_succ. unfold Examples.quad.
  intros [K | [K | [K | [K | K]]]]; try discriminate K. now apply IH.
Qed.

Lemma longPayload_not_empty (groups : N) :
  Examples.longPayload (N.succ groups) <> [].
Proof. rewrite longPayload_succ. discriminate. Qed.

Lemma image_payload_validation_witness :
  HazardService.validateImageData Examples.lenientBase64
    (Examples.longPayload 1398102)
  = inl (HazardService.ErrorObj "Image size exceeds maximum limit of 4MB") /\
  HazardService.validateImageData Examples.lenientBase64 (str "aGVsbG8=")
  = inr tt /\
  Detect.processBase64Image Examples.strictBase64 (str "aGVsbG8=")
  = inr (map Examples.toByte [104; 101; 108; 108; 111], str "jpeg") /\
  Detect.processBase64Image Examples.strictBase64
    (str "data:image/png;base64,aGVsbG8=")
  = inr (map Examples.toByte [104; 101; 108; 108; 111], str "png").
Proof.
  pose proof (image_payload_validation Examples.lenientBase64
                (fun _ => inr None) Examples.strictBase64)
    as (_ & H1 & H2 & _ & H3 & H4 & _).
  split; [|split; [|split]].
  - apply H1.
    + exact (longPayload_not_empty 1398101).
    + rewrite lenientBase64_longPayload. reflexivity.
  - apply H2.
    + discriminate.
    + vm_compute. discriminate.
  - rewrite H3.
    + vm_compute. reflexivity.
    + vm_compute. intuition discriminate.
  - apply (H4 (str "png") (str "aGVsbG8=")).
    + vm_compute. intuition discriminate.
    + vm_compute. intuition discriminate.
    + vm_compute. intuition discriminate.
    + vm_compute. reflexivity.
Defined.

(** C8, counterexample: each of the two functions lacks properties of the
    validator.  [processBase64Image] accepts the empty string, as zero
    bytes of a jpeg, and the Go entry point hands them to the model and
    answers with what the model made of them; [processBase64Image] accepts
    a payload that decodes to more than 4 MiB; the TypeScript handler,
    asked with a data URI that declares png, hands the whole URI to the
    model tagged image/jpeg. *)
Lemma image_validators_differ :
  Detect.processBase64Image Examples.strictBase64 [] = inr ([], str "jpeg") /\
  Detect.DetectHazards Examples.plainTable Examples.plainTable
    Examples.strictBase64
    (fun format imageData =>
       match imageData with
       | [] =>
           inr [ {| Detect.Content :=
                      Some [Detect.Text
                              (Detect.Value
                                 (Detect.JObject
                                    [(str "severity",
                                      Detect.JString (str "LOW"));
                                     (str "safe_direction",
                                      Detect.JString (str "Path is clear."))]))]
                 |} ]
       | _ :: _ => inl "an image with content"%string
       end)
    "secret" true true
    {| Detect.Method := "POST"; Detect.XAPIKey := "secret";
       Detect.Body :=
         Detect.Value (Detect.JObject [(str "image", Detect.JString [])]) |}
  = Detect.Responded 200
      (Detect.DetectionPayload
         {| Detect.SpeechText := str "Path is clear.";
            Detect.ResponseSeverity := str "LOW" |}) /\
  (exists imageData,
      Detect.processBase64Image Examples.strictBase64
        (Examples.longPayload 1398102)
      = inr (imageData, str "jpeg") /\
      HazardService.MAX_IMAGE_SIZE < N.of_nat (List.length imageData)) /\
  HazardService.handleDetectHazards Examples.lenientBase64
    (fun part =>
       if String.eqb (HazardService.mimeType part) "image/jpeg"
          && Text.eqb (HazardService.data part)
                      (str "data:image/png;base64,aGVsbG8=")
       then inr (Some [HazardService.TextPart (str "Path is clear. LOW")])
       else inl (HazardService.ErrorObj "another image"))
    (Some {| HazardService.image :=
               Some (str "data:image/png;base64,aGVsbG8=") |})
  = {| HazardService.status := 200;
       HazardService.json :=
         HazardService.ResultJson
           {| Processor.speechText := str "Path is clear.";
              Processor.severity := str "LOW" |} |}.
Proof.
  split; [reflexivity|]. split; [|split].
  - vm_compute. reflexivity.
  - destruct (strictBase64_longPayload 1398102) as (imageData & E & L).
    exists imageData. split.
    + rewrite (processBase64Image_bare Examples.strictBase64)
        by apply longPayload_without_comma.
      now rewrite E.
    + rewrite L. reflexivity.
  - vm_compute. reflexivity.
Qed.

(** ** The place search service *)

Section PlacesFacts.
Import Places.

Variable number : Type.
Variable numberToString : number -> string.
Variable placesGateway :
  SearchBody number -> SearchHeaders -> AxiosError + PlacesData number.
Variable distanceGateway : DistanceParams -> AxiosError + DistanceData.
Variable apiKey : option string.

Local Abbreviation searchPlaces :=
  (Places.searchPlaces number numberToString placesGateway distanceGateway
     apiKey).
Local Abbreviation latLng := (Places.latLng number numberToString).
Local Abbreviation enrich := (Places.enrich number).
Local Abbreviation M := (Places.M number).
Local Abbreviation bind := (Places.bind number).
Local Abbreviation ret := (Places.ret number).
Local Abbreviation defined := (Places.defined number).
Local Abbreviation mapM := (Places.mapM number).

Lemma bind_returns {A B} (c : M A) (k : A -> M B)
    (log log' : list (Call number)) (a : A) :
  c log = (log', inr a) -> bind c k log = k a log'.
Proof. unfold Places.bind. now intros ->. Qed.

Lemma bind_throws {A B} (c : M A) (k : A -> M B)
    (log log' : list (Call number)) (e : Thrown) :
  c log = (log', inl e) -> bind c k log = (log', inl e).
Proof. unfold Places.bind. now intros ->. Qed.

(** Reading the locations of places that all have one makes no call. *)
Lemma mapM_locations (l : list (Place number)) (sent : list (Coordinates number))
    (index : nat) (log : list (Call number)) :
  map (location number) l = map Some sent ->
  mapM (fun place _ => defined (location number place)) l index log
  = (log, inr sent).
Proof.
  revert sent index log; induction l as [|p l IH]; intros [|c sent] index log;
    simpl; try discriminate.
  - reflexivity.
  - intros H. injection H as Hp Hl.
    rewrite (bind_returns _ _ log log c) by (now rewrite Hp).
    rewrite (bind_returns _ _ log log sent) by (now apply IH).
    reflexivity.
Qed.

(** The merge reads element [index] of the first row for the place at
    [index]. *)
Lemma mapM_merge (l : list (Place number)) (data : DistanceData)
    (row : Row) (others : list Row) (index : nat) (log : list (Call number)) :
  rows data = row :: others ->
  (index + List.length l <= List.length (elements row))%nat ->
  mapM
    (fun place i =>
       bind (defined (nth_error (rows data) 0))
         (fun row =>
            bind (defined (nth_error (elements row) i))
              (fun element =>
                 ret {| place := place;
                        placeDistance := distance element;
                        placeDuration := duration element |})))
    l index log
  = (log, inr (map (fun pe => enrich (fst pe) (snd pe))
                   (combine l (skipn index (elements row))))).
Proof.
  intros Hr. revert index log; induction l as [|p l IH]; intros index log Hlen.
  - reflexivity.
  - simpl in Hlen.
    destruct (nth_error (elements row) index) as [e|] eqn:He.
    2:{ apply nth_error_None in He. lia. }
    assert (Hs : skipn index (elements row)
                 = e :: skipn (S index) (elements row)).
    { clear - He. revert index He.
      induction (elements row) as [|x xs IHx]; intros [|i] H; simpl in *;
        try discriminate.
      - now injection H as ->.
      - now apply IHx. }
    rewrite Hs. cbn [Places.mapM combine map fst snd].
    rewrite (bind_returns _ _ log log (enrich p e)).
    + rewrite (bind_returns _ _ log log
                 (map (fun pe => enrich (fst pe) (snd pe))
                      (combine l (skipn (S index) (elements row)))))
        by (apply IH; lia).
      reflexivity.
    + rewrite (bind_returns _ _ log log row) by (now rewrite Hr).
      rewrite (bind_returns _ _ log log e) by (now rewrite He).
      reflexivity.
Qed.

Lemma firstn_four (places : list (Place number)) :
  (if Nat.ltb 4 (List.length places) then firstn 4 places else places)
  = firstn 4 places.
Proof.
  destruct (Nat.ltb 4 (List.length places)) eqn:E; [reflexivity|].
  apply PeanoNat.Nat.ltb_ge in E. symmetry. now apply firstn_all2.
Qed.

(** C6: the enrichment.  When the search answers with candidates that all
    carry a location, and the distance gateway answers the request for the
    first four of them with a first row of at least as many elements, the
    service makes exactly two requests, the second with the coordinates of
    the first four candidates in their order, and returns those candidates
    in that order, the candidate at index [i] carrying the distance and the
    duration of element [i] of the row. *)
Theorem enrichment_by_index
    (textQuery : string) (currentCoordinates : Coordinates number)
    (radius : number) (fields rankPreference : string)
    (candidates : list (Place number)) (sent : list (Coordinates number))
    (row : Row) (others : list Row) :
  let body := {| Places.textQuery := textQuery; center := currentCoordinates;
                 Places.radius := radius;
                 Places.rankPreference := rankPreference |} in
  let config := {| fieldMask := fields; apiKeyHeader := apiKey |} in
  let params := {| origins := latLng currentCoordinates;
                   destinations := String.concat "|" (map latLng sent);
                   mode := "walking";
                   key := apiKey |} in
  placesGateway body config = inr {| places := Some candidates |} ->
  map (location number) (firstn 4 candidates) = map Some sent ->
  distanceGateway params = inr {| rows := row :: others |} ->
  (List.length (firstn 4 candidates) <= List.length (elements row))%nat ->
  exists result,
    searchPlaces textQuery currentCoordinates radius fields rankPreference []
    = ([PlacesPost number placesUrl body config;
        DistanceGet number distanceMatrixUrl params],
       inr result) /\
    map (place number) result = firstn 4 candidates /\
    forall (i : nat) (p : Place number),
      nth_error (firstn 4 candidates) i = Some p ->
      exists e,
        nth_error (elements row) i = Some e /\
        nth_error result i = Some (enrich p e).
Proof.
  intros body config params Hsearch Hloc Hdist Hlen.
  exists (map (fun pe => enrich (fst pe) (snd pe))
              (combine (firstn 4 candidates) (elements row))).
  split; [|split].
  - unfold Places.searchPlaces, Places.tryCatch.
    fold body. fold config.
    rewrite (bind_returns _ _ [] [PlacesPost number placesUrl body config]
               {| places := Some candidates |}).
    2:{ unfold Places.axiosPost. now rewrite Hsearch. }
    cbn [places Places.defined].
    rewrite (bind_returns _ _ _ _ candidates) by reflexivity.
    rewrite firstn_four.
    rewrite (bind_returns _ _ _ _ sent) by (now apply mapM_locations).
    fold params.
    rewrite (bind_returns _ _ _
               [PlacesPost number placesUrl body config;
                DistanceGet number distanceMatrixUrl params]
               {| rows := row :: others |}).
    2:{ unfold Places.axiosGet. now rewrite Hdist. }
    rewrite (mapM_merge _ _ row others 0) by (auto; simpl; lia).
    reflexivity.
  - rewrite map_map.
    assert (K : forall (l : list (Place number)) (es : list Element),
              (List.length l <= List.length es)%nat ->
              map (fun pe => place number (enrich (fst pe) (snd pe)))
                  (combine l es) = l).
    { induction l as [|p l IH]; intros [|e es] H; simpl in *;
        try reflexivity; try lia.
      f_equal. apply IH. lia. }
    now apply K.
  - intros i p Hp.
    assert (K : forall (l : list (Place number)) (es : list Element) i p,
              (List.length l <= List.length es)%nat ->
              nth_error l i = Some p ->
              exists e, nth_error es i = Some e /\
                nth_error (map (fun pe => enrich (fst pe) (snd pe))
                               (combine l es)) i = Some (enrich p e)).
    { clear. induction l as [|q l IH]; intros [|e es] [|i] p H Hn;
        simpl in *; try discriminate; try lia.
      - injection Hn as ->. now exists e.
      - apply IH; [lia | assumption]. }
    now apply K.
Qed.

(** C5, as the code has it: an empty list of candidates does not stop the
    service from asking the distance gateway.  It makes the request with
    an empty [destinations]; when the gateway answers, the result is the
    empty list, and when it fails, the failure is thrown on. *)
Theorem empty_search_asks_distances
    (textQuery : string) (currentCoordinates : Coordinates number)
    (radius : number) (fields rankPreference : string) :
  let body := {| Places.textQuery := textQuery; center := currentCoordinates;
                 Places.radius := radius;
                 Places.rankPreference := rankPreference |} in
  let config := {| fieldMask := fields; apiKeyHeader := apiKey |} in
  let params := {| origins := latLng currentCoordinates;
                   destinations := "";
                   mode := "walking";
                   key := apiKey |} in
  placesGateway body config = inr {| places := Some [] |} ->
  searchPlaces textQuery currentCoordinates radius fields rankPreference []
  = ([PlacesPost number placesUrl body config;
      DistanceGet number distanceMatrixUrl params],
     match distanceGateway params with
     | inl e =>
         inl (ErrorObj (String.append "Search Places API error: "
                                      (upstreamMessage e)))
     | inr _ => inr []
     end).
Proof.
  intros body config params Hsearch.
  unfold Places.searchPlaces, Places.tryCatch.
  fold body. fold config.
  rewrite (bind_returns _ _ [] [PlacesPost number placesUrl body config]
             {| places := Some [] |}).
  2:{ unfold Places.axiosPost. now rewrite Hsearch. }
  cbn [places Places.defined].
  rewrite (bind_returns _ _ _ _ []) by reflexivity.
  cbn [List.length Nat.ltb Nat.leb firstn Places.mapM].
  rewrite (bind_returns _ _ _ _ []) by reflexivity.
  cbn [map String.concat]. fold params.
  destruct (distanceGateway params) as [e|d] eqn:Hd.
  - rewrite (bind_throws _ _ _
               [PlacesPost number placesUrl body config;
                DistanceGet number distanceMatrixUrl params] (Axios e)).
    + reflexivity.
    + unfold Places.axiosGet. now rewrite Hd.
  - rewrite (bind_returns _ _ _
               [PlacesPost number placesUrl body config;
                DistanceGet number distanceMatrixUrl params] d).
    + reflexivity.
    + unfold Places.axiosGet. now rewrite Hd.
Qed.

End PlacesFacts.

Lemma enrichment_by_index_witness :
  exists result,
    Places.searchPlaces N Examples.showN
      (fun _ _ => inr {| Places.places := Some Examples.sixPlaces |})
      (fun _ => inr {| Places.rows :=
                         [ {| Places.elements := Examples.fourWalks |} ] |})
      (Some "key"%string) "pharmacy" Examples.here 10000
      "places.location" "DISTANCE" []
    = ([Places.PlacesPost N Places.placesUrl
          {| Places.textQuery := "pharmacy"; Places.center := Examples.here;
             Places.radius := 10000; Places.rankPreference := "DISTANCE" |}
          {| Places.fieldMask := "places.location";
             Places.apiKeyHeader := Some "key"%string |};
        Places.DistanceGet N Places.distanceMatrixUrl
          {| Places.origins := "1,2";
             Places.destinations := "10,20|11,21|11,21|13,23";
             Places.mode := "walking";
             Places.key := Some "key"%string |}],
       inr result) /\
    map (Places.place N) result = firstn 4 Examples.sixPlaces /\
    forall (i : nat) (p : Places.Place N),
      nth_error (firstn 4 Examples.sixPlaces) i = Some p ->
      exists e,
        nth_error Examples.fourWalks i = Some e /\
        nth_error result i = Some (Places.enrich N p e).
Proof.
  refine (enrichment_by_index N Examples.showN _ _ (Some "key"%string)
            "pharmacy" Examples.here 10000 "places.location" "DISTANCE"
            Examples.sixPlaces
            [ {| Places.latitude := 10; Places.longitude := 20 |};
              {| Places.latitude := 11; Places.longitude := 21 |};
              {| Places.latitude := 11; Places.longitude := 21 |};
              {| Places.latitude := 13; Places.longitude := 23 |} ]
            {| Places.elements := Examples.fourWalks |} [] _ _ _ _).
  - reflexivity.
  - reflexivity.
  - reflexivity.
  - simpl. lia.
Defined.

Lemma empty_search_asks_distances_witness :
  Places.searchPlaces N Examples.showN
    (fun _ _ => inr {| Places.places := Some [] |})
    (fun _ => inl {| Places.responseMessage := None;
                     Places.message := "Request failed with status code 400" |})
    None "pharmacy" Examples.here 10000 "places.location" "DISTANCE" []
  = ([Places.PlacesPost N Places.placesUrl
        {| Places.textQuery := "pharmacy"; Places.center := Examples.here;
           Places.radius := 10000; Places.rankPreference := "DISTANCE" |}
        {| Places.fieldMask := "places.location";
           Places.apiKeyHeader := None |};
      Places.DistanceGet N Places.distanceMatrixUrl
        {| Places.origins := "1,2";
           Places.destinations := "";
           Places.mode := "walking";
           Places.key := None |}],
     inl (Places.ErrorObj
            "Search Places API error: Request failed with status code 400")).
Proof.
  refine (empty_search_asks_distances N Examples.showN _ _ None
            "pharmacy" Examples.here 10000 "places.location" "DISTANCE" _).
  reflexivity.
Defined.

(** C5, counterexample: the search answers with no candidate; the service
    returns the empty list, having called the distance gateway. *)
Lemma empty_search_calls_distance_gateway :
  let run :=
    Places.searchPlaces N Examples.showN
      (fun _ _ => inr {| Places.places := Some [] |})
      (fun _ => inr {| Places.rows := [] |})
      (Some "key"%string) "pharmacy" Examples.here 10000
      "places.location" "DISTANCE" [] in
  snd run = inr [] /\ Places.callsDistanceGateway N (fst run) = true.
Proof. vm_compute. split; reflexivity. Qed.

(** ** More on the free-text processor *)

Section ProcessorMore.
Import Processor Speech.

Lemma words_cons_blank (c : N) (s : text) :
  isWhiteSpace c = true -> words (c :: s) = words s.
Proof. intros H. simpl. now rewrite H. Qed.

Lemma words_cons_inked (c : N) (s : text) :
  isWhiteSpace c = false ->
  words (c :: s)
  = match s with
    | [] => [[c]]
    | c' :: _ =>
        if isWhiteSpace c' then [c] :: words s
        else match words s with
             | w :: ws => (c :: w) :: ws
             | [] => [[c]]
             end
    end.
Proof. intros H. simpl. now rewrite H. Qed.

(** Every word is non-empty and free of white space. *)
Lemma words_inked (s : text) :
  Forall (fun w => w <> [] /\ forallb (fun c => negb (isWhiteSpace c)) w = true)
         (words s).
Proof.
  induction s as [|c s IH]; [constructor|].
  destruct (isWhiteSpace c) eqn:Hc.
  - now rewrite words_cons_blank.
  - rewrite words_cons_inked by assumption.
    assert (G : forallb (fun c => negb (isWhiteSpace c)) [c] = true)
      by (simpl; now rewrite Hc).
    destruct s as [|c' s'].
    + constructor; [|constructor]. split; [discriminate | exact G].
    + destruct (isWhiteSpace c').
      * constructor; [|exact IH]. split; [discriminate | exact G].
      * destruct (words (c' :: s')) as [|w ws].
        -- constructor; [|constructor]. split; [discriminate | exact G].
        -- inversion IH as [|? ? [Hw1 Hw2] Hws]; subst.
           constructor; [|exact Hws]. split; [discriminate|].
           simpl. now rewrite Hc, Hw2.
Qed.

Lemma tidyFrom_word (w rest : text) :
  forallb (fun c => negb (isWhiteSpace c)) w = true ->
  tidyFrom (w ++ rest) = tidyFrom rest.
Proof.
  induction w as [|c w IH]; simpl; [reflexivity|].
  intros H. apply andb_true_iff in H as [Hc H].
  apply negb_true_iff in Hc. rewrite Hc. auto.
Qed.

Lemma tidyFrom_unwords (ws : list text) :
  Forall (fun w => w <> [] /\ forallb (fun c => negb (isWhiteSpace c)) w = true)
         ws ->
  tidyFrom (unwords ws) = true /\
  match unwords ws with
  | [] => ws = []
  | c :: _ => isWhiteSpace c = false
  end.
Proof.
  induction 1 as [|w ws [Hne Hw] Hws [IH1 IH2]]; [now split|].
  assert (Hhead : forall rest, match w ++ rest with
                               | [] => False
                               | c :: _ => isWhiteSpace c = false
                               end).
  { intros rest. destruct w as [|c w]; [congruence|].
    simpl in Hw. apply andb_true_iff in Hw as [Hc _].
    now apply negb_true_iff in Hc. }
  destruct ws as [|w' ws'].
  - simpl unwords. split.
    + rewrite <- (app_nil_r w). now rewrite tidyFrom_word.
    + specialize (Hhead []). rewrite app_nil_r in Hhead.
      destruct w; [contradiction | exact Hhead].
  - rewrite unwords_cons by discriminate. split.
    + rewrite tidyFrom_word by assumption.
      change (tidyFrom (32 :: unwords (w' :: ws')))
        with (match unwords (w' :: ws') with
              | [] => false
              | c' :: _ => negb (isWhiteSpace c') && tidyFrom (unwords (w' :: ws'))
              end).
      destruct (unwords (w' :: ws')) as [|c' u] eqn:E; [discriminate IH2|].
      rewrite IH2. exact IH1.
    + specialize (Hhead (32 :: unwords (w' :: ws'))).
      destruct (w ++ 32 :: unwords (w' :: ws')); [contradiction | exact Hhead].
Qed.

Lemma tidy_singleSpaced (s : text) : tidy (singleSpaced s) = true.
Proof.
  unfold tidy, singleSpaced.
  destruct (tidyFrom_unwords (words s) (words_inked s)) as [H1 H2].
  destruct (unwords (words s)) as [|c u]; [reflexivity|].
  now rewrite H2, H1.
Qed.

Lemma inked_app (a b : text) : inked (a ++ b) = inked a ++ inked b.
Proof. apply filter_app. Qed.

Lemma inked_word (w : text) :
  forallb (fun c => negb (isWhiteSpace c)) w = true -> inked w = w.
Proof.
  induction w as [|c w IH]; simpl; [reflexivity|].
  intros H. apply andb_true_iff in H as [Hc H]. rewrite Hc. now rewrite IH.
Qed.

Lemma inked_unwords (ws : list text) :
  Forall (fun w => w <> [] /\ forallb (fun c => negb (isWhiteSpace c)) w = true)
         ws ->
  inked (unwords ws) = List.concat ws.
Proof.
  induction 1 as [|w ws [Hne Hw] Hws IH]; [reflexivity|].
  destruct ws as [|w' ws'].
  - simpl. rewrite app_nil_r. now apply inked_word.
  - rewrite unwords_cons by discriminate.
    rewrite inked_app, inked_word by assumption.
    change (inked (32 :: unwords (w' :: ws')))
      with (inked (unwords (w' :: ws'))).
    now rewrite IH.
Qed.

Lemma concat_words (s : text) : List.concat (words s) = inked s.
Proof.
  induction s as [|c s IH]; [reflexivity|].
  destruct (isWhiteSpace c) eqn:Hc.
  - rewrite words_cons_blank by assumption. unfold inked. simpl.
    now rewrite Hc.
  - rewrite words_cons_inked by assumption.
    unfold inked in *. cbn [filter]. rewrite Hc. cbn [negb].
    destruct s as [|c' s']; [reflexivity|].
    destruct (isWhiteSpace c') eqn:Hc'.
    + cbn [List.concat app]. now rewrite IH.
    + rewrite <- IH. destruct (words (c' :: s')) as [|w ws] eqn:E.
      * reflexivity.
      * reflexivity.
Qed.

Lemma inked_singleSpaced (s : text) : inked (singleSpaced s) = inked s.
Proof.
  unfold singleSpaced. rewrite inked_unwords by apply words_inked.
  apply concat_words.
Qed.

Lemma tidyFrom_spaces (s : text) (c : N) :
  tidyFrom s = true -> In c s -> isWhiteSpace c = true -> c = 32.
Proof.
  induction s as [|x s IH]; simpl; [contradiction|].
  intros Ht [-> | Hin] Hc.
  - rewrite Hc in Ht. apply andb_true_iff in Ht as [Ht _].
    now apply N.eqb_eq in Ht.
  - destruct (isWhiteSpace x).
    + apply andb_true_iff in Ht as [_ Ht].
      destruct s as [|y s']; [discriminate|].
      apply andb_true_iff in Ht as [_ Ht]. now apply IH.
    + now apply IH.
Qed.

Lemma singleSpaced_empty (s : text) : singleSpaced s = [] <-> inked s = [].
Proof.
  split; intros H.
  - rewrite <- inked_singleSpaced. now rewrite H.
  - pose proof (tidy_singleSpaced s) as Ht.
    pose proof (inked_singleSpaced s) as Hi. rewrite H in Hi.
    destruct (singleSpaced s) as [|c u]; [reflexivity|].
    unfold tidy in Ht. apply andb_true_iff in Ht as [Hc _].
    unfold inked in Hi. simpl in Hi. rewrite Hc in Hi. discriminate.
Qed.

Ltac token_letters H tok :=
  unfold HIGH, MED, LOW, toUpperCase in H;
  repeat (let c := fresh "c" in destruct tok as [|c tok]; try discriminate H);
  simpl in H.

Lemma regexExec_absent (analysis : text) :
  (forall pre tok tail, ~ TrailingToken analysis pre tok tail) ->
  regexExec analysis = None.
Proof.
  intros H. destruct (regexExec analysis) as [m|] eqn:E; [|reflexivity].
  apply regexExec_sound in E. now apply H in E.
Qed.

Lemma speechTextOf_singleSpaced (analysis : text) :
  speechTextOf analysis = singleSpaced (replaceRegex analysis).
Proof. unfold speechTextOf. apply collapse_trim. Qed.

(** X1: whatever the model wrote, the severity that
    [processHazardAnalysis] returns is one of the words HIGH, MED and LOW,
    in upper case. *)
Theorem processor_severity_word (analysis : text) :
  isSeverityWord (severity (processHazardAnalysis analysis)) = true.
Proof.
  unfold processHazardAnalysis.
  destruct (speechTextOf analysis); [reflexivity|].
  cbn [severity]. unfold severityOf.
  destruct (regexExec analysis) as [m|] eqn:E; [|reflexivity].
  apply regexExec_sound in E as (_ & Ht & _).
  apply isToken_cases in Ht. unfold isSeverityWord.
  rewrite !orb_true_iff, !eqb_eq. tauto.
Qed.

(** X2: the speech text that [processHazardAnalysis] returns has no white
    space at either end and exactly one U+0020 between two words; no tab,
    line break or other white-space character is left in it. *)
Theorem processor_speech_tidy (analysis : text) :
  tidy (speechText (processHazardAnalysis analysis)) = true /\
  (forall c, In c (speechText (processHazardAnalysis analysis)) ->
             isWhiteSpace c = true -> c = 32).
Proof.
  assert (T : tidy (speechText (processHazardAnalysis analysis)) = true).
  { unfold processHazardAnalysis.
    destruct (speechTextOf analysis) as [|c u] eqn:E; [reflexivity|].
    cbn [speechText]. rewrite <- E, speechTextOf_singleSpaced.
    apply tidy_singleSpaced. }
  split; [exact T|].
  intros c Hin Hc. unfold tidy in T.
  destruct (speechText (processHazardAnalysis analysis)) as [|x u];
    [contradiction|].
  apply andb_true_iff in T as [_ T]. eapply tidyFrom_spaces; eauto.
Qed.

(** X3: normalising the speech only touches white space.  With a trailing
    token, the characters of the returned speech that are not white space
    are those of the text before the token, in order; without one, those of
    the whole input.  When that text holds nothing but white space the
    fallback response is returned.  Otherwise the result equals the fallback
    response in one case only: the normalised text is the fallback phrase
    itself and the severity is MED (the token is MED, or there is none). *)
Theorem processor_keeps_ink (analysis : text) :
  (forall pre tok tail,
      TrailingToken analysis pre tok tail ->
      (inked pre <> [] ->
       inked (speechText (processHazardAnalysis analysis)) = inked pre) /\
      (processHazardAnalysis analysis = fallbackResponse <->
       inked pre = [] \/
       (singleSpaced pre = fallbackSpeech /\ toUpperCase tok = MED))) /\
  ((forall pre tok tail, ~ TrailingToken analysis pre tok tail) ->
      (inked analysis <> [] ->
       inked (speechText (processHazardAnalysis analysis)) = inked analysis) /\
      (processHazardAnalysis analysis = fallbackResponse <->
       inked analysis = [] \/ singleSpaced analysis = fallbackSpeech)).
Proof.
  assert (K : forall before sev,
            speechTextOf analysis = singleSpaced before ->
            severityOf analysis = sev ->
            (inked before <> [] ->
             inked (speechText (processHazardAnalysis analysis)) = inked before) /\
            (processHazardAnalysis analysis = fallbackResponse <->
             inked before = [] \/
             (singleSpaced before = fallbackSpeech /\ sev = MED))).
  { intros before sev E Es. unfold processHazardAnalysis. rewrite E, Es.
    pose proof (singleSpaced_empty before) as Hempty.
    pose proof (inked_singleSpaced before) as Hink.
    destruct (singleSpaced before) as [|c u].
    - split.
      + intros Hne. exfalso. apply Hne. now apply Hempty.
      + split; [intros _; left; now apply Hempty | reflexivity].
    - cbn [speechText]. split; [intros _; exact Hink|]. split.
      + intros R. right. split.
        * exact (f_equal speechText R).
        * exact (f_equal severity R).
      + intros [He | [R1 R2]].
        * apply Hempty in He. discriminate He.
        * unfold fallbackResponse. now rewrite R1, R2. }
  split.
  - intros pre tok tail T. pose proof T as (-> & _).
    apply K; [now apply speechTextOf_token | now apply severityOf_token].
  - intros H.
    assert (E : regexExec analysis = None) by now apply regexExec_absent.
    destruct (K analysis MED) as [K1 K2].
    + rewrite speechTextOf_singleSpaced. unfold replaceRegex. now rewrite E.
    + unfold severityOf. now rewrite E.
    + split; [exact K1|]. rewrite K2. intuition.
Qed.

Lemma processor_keeps_ink_witness :
  inked (speechText (processHazardAnalysis
           (str "  Turn	left,
 then stop.  low . ")))
  = str "Turnleft,thenstop." /\
  processHazardAnalysis (str "Unable to analyze image properly MED")
  = fallbackResponse.
Proof.
  split.
  - refine (proj1 (proj1 (processor_keeps_ink _)
              (str "  Turn	left,
 then stop.  ") (str "low") (str " . ") _) _).
    + repeat split.
    + discriminate.
  - refine (proj2 (proj2 (proj1 (processor_keeps_ink _)
              (str "Unable to analyze image properly ") (str "MED") [] _)) _).
    + repeat split.
    + right. split; reflexivity.
Defined.

(** X4: a text whose last character is neither a dot, nor white space, nor
    one of the letters H, D and W in either case does not end with a token
    (so "… HIGH!" has none): the severity is MED and the speech is the
    whole text, normalised. *)
Theorem no_token_before_other_ending (body : text) (c : N) :
  dotOrSpace c = false ->
  asciiUpper c <> 72 -> asciiUpper c <> 68 -> asciiUpper c <> 87 ->
  severityOf (body ++ [c]) = MED /\
  speechTextOf (body ++ [c]) = singleSpaced (body ++ [c]) /\
  processHazardAnalysis (body ++ [c])
  = {| speechText := singleSpaced (body ++ [c]); severity := MED |}.
Proof.
  intros Hc H1 H2 H3.
  assert (N0 : forall pre tok tail, ~ TrailingToken (body ++ [c]) pre tok tail).
  { intros pre tok tail (E & Ht & Htail).
    destruct tail as [|t tail] using rev_ind.
    - rewrite app_nil_r in E.
      apply isToken_cases in Ht.
      destruct Ht as [Ht | [Ht | Ht]]; token_letters Ht tok.
      + injection Ht as _ _ _ K.
        change (pre ++ [c0; c1; c2; c3]) with (pre ++ [c0; c1; c2] ++ [c3]) in E.
        rewrite app_assoc in E. apply app_inj_tail in E as [_ ->]. auto.
      + injection Ht as _ _ K.
        change (pre ++ [c0; c1; c2]) with (pre ++ [c0; c1] ++ [c2]) in E.
        rewrite app_assoc in E. apply app_inj_tail in E as [_ ->]. auto.
      + injection Ht as _ _ K.
        change (pre ++ [c0; c1; c2]) with (pre ++ [c0; c1] ++ [c2]) in E.
        rewrite app_assoc in E. apply app_inj_tail in E as [_ ->]. auto.
    - rewrite !app_assoc in E. apply app_inj_tail in E as [_ ->].
      rewrite forallb_app in Htail. apply andb_true_iff in Htail as [_ Htail].
      simpl in Htail. rewrite Hc in Htail. discriminate. }
  pose proof (regexExec_absent _ N0) as E.
  assert (S1 : severityOf (body ++ [c]) = MED)
    by (unfold severityOf; now rewrite E).
  assert (S2 : speechTextOf (body ++ [c]) = singleSpaced (body ++ [c])).
  { rewrite speechTextOf_singleSpaced. unfold replaceRegex. now rewrite E. }
  repeat split; auto.
  unfold processHazardAnalysis. rewrite S1, S2.
  destruct (singleSpaced (body ++ [c])) as [|x u] eqn:Es; [|reflexivity].
  exfalso. apply singleSpaced_empty in Es. rewrite inked_app in Es.
  apply app_eq_nil in Es as [_ Es]. unfold inked in Es. simpl in Es.
  unfold dotOrSpace in Hc. apply orb_false_iff in Hc as [_ Hc].
  rewrite Hc in Es. discriminate.
Qed.

Lemma no_token_before_other_ending_witness :
  processHazardAnalysis (str "STOP. Car ahead. HIGH!")
  = {| speechText := str "STOP. Car ahead. HIGH!"; severity := str "MED" |}.
Proof.
  refine (proj2 (proj2 (no_token_before_other_ending
                          (str "STOP. Car ahead. HIGH") 33 _ _ _ _)));
    [reflexivity | discriminate | discriminate | discriminate].
Defined.

End ProcessorMore.

(** ** The hazard detection handler *)

Section HandlerFacts.
Import Processor HazardService.

Variable bufferFromBase64 : text -> list Byte.byte.
Variable generateContent : InlineData -> Thrown + option (list Part).

Local Abbreviation validateImageData :=
  (HazardService.validateImageData bufferFromBase64).
Local Abbreviation handleDetectHazards :=
  (HazardService.handleDetectHazards bufferFromBase64 generateContent).

Lemma join_empty (l : list text) :
  join [32] l = [] <-> l = [] \/ l = [[]].
Proof.
  split.
  - destruct l as [|t [|t' l]]; simpl.
    + now left.
    + intros ->. now right.
    + intros H. apply app_eq_nil in H as [_ H]. discriminate.
  - intros [-> | ->]; reflexivity.
Qed.

(** The handler once the image has passed and the model has answered. *)
Lemma handleDetectHazards_answered (b : RequestBody) (img : text)
    (parts : list Part) :
  image b = Some img -> img <> [] ->
  validateImageData img = inr tt ->
  generateContent {| data := img; mimeType := "image/jpeg" |}
  = inr (Some parts) ->
  handleDetectHazards (Some b)
  = match join [32] (textsOf parts) with
    | [] => {| status := 500;
               json := ErrorJson "No analysis result from Vertex AI" None |}
    | analysisText =>
        {| status := 200;
           json := ResultJson (processHazardAnalysis analysisText) |}
    end.
Proof.
  intros Hi Hne Hv Hg. unfold HazardService.handleDetectHazards.
  rewrite Hi. destruct img as [|c img]; [congruence|].
  unfold HazardService.detectHazardsInImage. rewrite Hv, Hg.
  destruct (join [32] (textsOf parts)); reflexivity.
Qed.

(** X5: a request is refused before the model is consulted when it has no
    body (400), when its image is missing or the empty string (400, so the
    service's own "Image data is empty" is never what a client reads), and
    when the image decodes to more than 4 MiB (500 with the size message):
    the response is the same whatever the model would have answered. *)
Theorem image_refused_before_model :
  handleDetectHazards None
  = {| status := 400; json := ErrorJson "Missing request body" None |} /\
  (forall b,
      image b = None \/ image b = Some [] ->
      handleDetectHazards (Some b)
      = {| status := 400;
           json := ErrorJson "Missing image data in request body" None |}) /\
  (forall b img,
      image b = Some img -> img <> [] ->
      MAX_IMAGE_SIZE < N.of_nat (List.length (bufferFromBase64 img)) ->
      handleDetectHazards (Some b)
      = {| status := 500;
           json := ErrorJson "Error processing image for hazard detection"
                     (Some "Image size exceeds maximum limit of 4MB"%string) |}).
Proof.
  split; [reflexivity|]. split.
  - intros b [H | H]; unfold HazardService.handleDetectHazards; now rewrite H.
  - intros b img Hi Hne Hsize. unfold HazardService.handleDetectHazards.
    rewrite Hi. destruct img as [|c img]; [congruence|].
    unfold HazardService.detectHazardsInImage,
      HazardService.validateImageData.
    apply N.ltb_lt in Hsize. now rewrite Hsize.
Qed.

(** X6: the handler answers with status 200, 400 or 500 and nothing else;
    a result is only ever sent with status 200, and then the image was
    present, passed validation, the model answered it (tagged image/jpeg)
    with parts, and the result is [processHazardAnalysis] of the parts'
    texts joined by single spaces, with a non-empty speech text. *)
Theorem handler_responses (body : option RequestBody) :
  match json (handleDetectHazards body) with
  | ErrorJson _ _ =>
      status (handleDetectHazards body) = 400 \/
      status (handleDetectHazards body) = 500
  | ResultJson r =>
      status (handleDetectHazards body) = 200 /\
      speechText r <> [] /\
      exists b img parts,
        body = Some b /\ image b = Some img /\
        validateImageData img = inr tt /\
        generateContent {| data := img; mimeType := "image/jpeg" |}
        = inr (Some parts) /\
        r = processHazardAnalysis (join [32] (textsOf parts))
  end.
Proof.
  unfold HazardService.handleDetectHazards.
  destruct body as [b|]; [|now left].
  destruct (image b) as [[|c img]|] eqn:Hi; [now left| |now left].
  unfold HazardService.detectHazardsInImage.
  destruct (validateImageData (c :: img)) as [e|[]] eqn:Hv; [now right|].
  destruct (generateContent _) as [e|[parts|]] eqn:Hg;
    [now right | | now right].
  destruct (join [32] (textsOf parts)) as [|x u] eqn:Hj; [now right|].
  cbn [json status]. split; [reflexivity|]. split.
  - unfold processHazardAnalysis.
    destruct (speechTextOf (x :: u)); discriminate.
  - exists b, (c :: img), parts. rewrite Hj. auto.
Qed.

(** X7: when the model has answered a valid image, the handler reports
    "No analysis result from Vertex AI" (500) exactly when the answer has
    no part with a text, or a single such part whose text is empty; any
    other answer, two empty texts included, is processed and sent with
    status 200. *)
Theorem no_analysis_result (b : RequestBody) (img : text) (parts : list Part) :
  image b = Some img -> img <> [] ->
  validateImageData img = inr tt ->
  generateContent {| data := img; mimeType := "image/jpeg" |}
  = inr (Some parts) ->
  (textsOf parts = [] \/ textsOf parts = [[]] ->
   handleDetectHazards (Some b)
   = {| status := 500;
        json := ErrorJson "No analysis result from Vertex AI" None |}) /\
  (textsOf parts <> [] -> textsOf parts <> [[]] ->
   handleDetectHazards (Some b)
   = {| status := 200;
        json := ResultJson
                  (processHazardAnalysis (join [32] (textsOf parts))) |}).
Proof.
  intros Hi Hne Hv Hg.
  rewrite (handleDetectHazards_answered b img parts Hi Hne Hv Hg).
  split.
  - intros H. apply join_empty in H. now rewrite H.
  - intros H1 H2.
    destruct (join [32] (textsOf parts)) as [|x u] eqn:Hj; [|reflexivity].
    apply join_empty in Hj. tauto.
Qed.

End HandlerFacts.

Lemma image_refused_before_model_witness :
  HazardService.handleDetectHazards Examples.lenientBase64
    (fun _ => inr (Some [HazardService.TextPart (str "GO. Clear path. LOW")]))
    (Some {| HazardService.image := Some (Examples.longPayload 1398102) |})
  = {| HazardService.status := 500;
       HazardService.json :=
         HazardService.ErrorJson "Error processing image for hazard detection"
           (Some "Image size exceeds maximum limit of 4MB"%string) |}.
Proof.
  refine (proj2 (proj2 (image_refused_before_model Examples.lenientBase64 _))
            {| HazardService.image := Some (Examples.longPayload 1398102) |}
            (Examples.longPayload 1398102) eq_refl _ _).
  - intros E.
    apply (f_equal (fun l : text => match l with [] => true | _ => false end))
      in E.
    lazy in E. discriminate E.
  - rewrite lenientBase64_longPayload. reflexivity.
Defined.

Lemma no_analysis_result_witness :
  HazardService.handleDetectHazards Examples.lenientBase64
    (fun _ => inr (Some [HazardService.TextPart []; HazardService.OtherPart;
                         HazardService.TextPart []]))
    (Some {| HazardService.image := Some (str "aGVsbG8=") |})
  = {| HazardService.status := 200;
       HazardService.json :=
         HazardService.ResultJson Processor.fallbackResponse |}.
Proof.
  refine (proj2 (no_analysis_result Examples.lenientBase64 _
                   {| HazardService.image := Some (str "aGVsbG8=") |}
                   (str "aGVsbG8=") _ eq_refl _ _ eq_refl) _ _);
    try discriminate.
  reflexivity.
Defined.

(** ** More on the structured-JSON entry point *)

Section SplitFacts.
Import Detect.

(** *** [strings.Split] *)

Lemma Split_length (s : text) (sep : N) :
  List.length (Split s sep) = S (count_occ N.eq_dec s sep).
Proof.
  induction s as [|c s IH]; [reflexivity|].
  simpl Split. destruct (c =? sep) eqn:E.
  - apply N.eqb_eq in E. subst c. simpl List.length.
    rewrite count_occ_cons_eq by reflexivity. now rewrite IH.
  - apply N.eqb_neq in E. rewrite count_occ_cons_neq by assumption.
    destruct (Split s sep) as [|p ps]; [discriminate IH | exact IH].
Qed.

(** The parts hold no separator, and joined by it they give the text
    back. *)
Lemma Split_parts (s : text) (sep : N) :
  Forall (fun part => ~ In sep part) (Split s sep).
Proof.
  induction s as [|c s IH]; simpl.
  - constructor; [tauto | constructor].
  - destruct (c =? sep) eqn:E.
    + constructor; [tauto | exact IH].
    + apply N.eqb_neq in E.
      destruct (Split s sep) as [|p ps]; [repeat constructor; simpl; tauto|].
      inversion IH as [|? ? Hp Hps]; subst.
      constructor; [|exact Hps]. intros [K | K]; [congruence | tauto].
Qed.

Lemma Split_two (s meta payload : text) (sep : N) :
  Split s sep = [meta; payload] -> s = meta ++ sep :: payload.
Proof.
  revert meta; induction s as [|c s IH]; intros meta; simpl.
  - discriminate.
  - destruct (c =? sep) eqn:E.
    + apply N.eqb_eq in E. subst c. intros H. injection H as <- H.
      pose proof (Split_length s sep) as L. rewrite H in L.
      simpl in L. injection L as L. symmetry in L.
      apply count_occ_not_In in L.
      rewrite (Split_without s sep L) in H. injection H as <-. reflexivity.
    + destruct (Split s sep) as [|p ps] eqn:Es.
      * intros H. discriminate H.
      * intros H. injection H as <- ->. simpl. f_equal. now apply IH.
Qed.

Lemma skipn_without (n : nat) (s : text) (sep : N) :
  ~ In sep s -> ~ In sep (skipn n s).
Proof.
  intros H K. apply H. clear H. revert s K.
  induction n as [|n IH]; intros [|c s]; simpl; auto.
Qed.

End SplitFacts.

Section SeverityMore.
Import Detect.

Variable upperTable : N -> N.

Local Abbreviation safeguardSeverity := (Detect.safeguardSeverity upperTable).

(** X8: the declared severity counts only when it is exactly "HIGH" or
    "MEDIUM".  Any other declaration (absent, "LOW", a lower-case or
    misspelled word) is ignored, the answer being read off the text alone;
    and the answer is always one of HIGH, MEDIUM and LOW. *)
Theorem declared_severity_recognition
    (hazards : list Hazard) (declared safeDirection : text) :
  declared <> str "HIGH" -> declared <> str "MEDIUM" ->
  let answer := safeguardSeverity {| Hazards := hazards; Severity := declared;
                                     SafeDirection := safeDirection |} in
  answer = safeguardSeverity {| Hazards := []; Severity := [];
                                SafeDirection := safeDirection |} /\
  (answer = str "HIGH" \/ answer = str "MEDIUM" \/ answer = str "LOW").
Proof.
  intros H1 H2 answer. subst answer.
  unfold Detect.safeguardSeverity. cbn [Severity SafeDirection].
  assert (E1 : Text.eqb declared (str "HIGH") = false).
  { destruct (Text.eqb declared (str "HIGH")) eqn:E; [|reflexivity].
    apply eqb_eq in E. contradiction. }
  assert (E2 : Text.eqb declared (str "MEDIUM") = false).
  { destruct (Text.eqb declared (str "MEDIUM")) eqn:E; [|reflexivity].
    apply eqb_eq in E. contradiction. }
  rewrite E1, E2.
  change (Text.eqb [] (str "HIGH")) with false.
  change (Text.eqb [] (str "MEDIUM")) with false. cbv iota.
  split; [reflexivity|].
  destruct (HasPrefix _ (str "STOP")); auto.
  destruct (_ || _); auto.
Qed.

End SeverityMore.

Section ImageMore.
Import Detect.

Variable DecodeString : text -> string + list Byte.byte.

Local Abbreviation processBase64Image :=
  (Detect.processBase64Image DecodeString).

(** X9: an input with exactly one comma is taken for a data URI, and is
    refused as "invalid image format in data URI", without being decoded,
    when the part before the comma does not have exactly one semicolon or
    does not start with "data:image/". *)
Theorem malformed_data_uri (meta payload : text) :
  ~ In 44 meta -> ~ In 44 payload ->
  count_occ N.eq_dec meta 59 <> 1%nat \/
  HasPrefix meta (str "data:image/") = false ->
  processBase64Image (meta ++ 44 :: payload) = inl InvalidDataURI.
Proof.
  intros Hm Hp H. unfold Detect.processBase64Image.
  rewrite (Split_at meta payload 44 Hm), (Split_without payload 44 Hp).
  destruct (Split meta 59) as [|m0 [|m1 [|m2 ms]]] eqn:Es; try reflexivity.
  destruct H as [H | H].
  - exfalso. apply H. pose proof (Split_length meta 59) as L.
    rewrite Es in L. simpl in L. now injection L as <-.
  - apply Split_two in Es. subst meta.
    assert (K : forall (p a b : text), ~ In 59 p ->
              HasPrefix (a ++ 59 :: b) p = false -> HasPrefix a p = false).
    { clear. induction p as [|x p IH]; intros a b Hp Hf; [discriminate Hf|].
      destruct a as [|c a]; [reflexivity|].
      simpl in Hf. simpl. destruct (c =? x); simpl in *; [|reflexivity].
      apply (IH a b); [|exact Hf]. intros K. apply Hp. now right. }
    assert (P : ~ In 59 (str "data:image/"))
      by (vm_compute; intuition discriminate).
    rewrite (K (str "data:image/") m0 m1 P H).
    reflexivity.
Qed.

(** X10: whenever [processBase64Image] succeeds, the bytes are what the
    decoder made of a final stretch of the input, and the format holds
    neither a comma nor a semicolon. *)
Theorem decoded_image_shape (base64Image : text)
    (imageData : list Byte.byte) (format : text) :
  processBase64Image base64Image = inr (imageData, format) ->
  ~ In 44 format /\ ~ In 59 format /\
  exists before b64Data,
    base64Image = before ++ b64Data /\ DecodeString b64Data = inr imageData.
Proof.
  unfold Detect.processBase64Image.
  assert (J : ~ In 44 (str "jpeg") /\ ~ In 59 (str "jpeg"))
    by (vm_compute; intuition discriminate).
  assert (Bare : match DecodeString base64Image with
                 | inl err => inl (DecodeFailed err)
                 | inr bytes => inr (bytes, str "jpeg")
                 end = inr (imageData, format) ->
                 ~ In 44 format /\ ~ In 59 format /\
                 exists before b64Data,
                   base64Image = before ++ b64Data /\
                   DecodeString b64Data = inr imageData).
  { destruct (DecodeString base64Image) as [e|bytes] eqn:Ed; [discriminate|].
    intros H. injection H as <- <-. destruct J as [J1 J2].
    repeat split; auto. exists [], base64Image. auto. }
  destruct (Split base64Image 44) as [|meta [|payload [|p3 ps]]] eqn:Es;
    try exact Bare.
  destruct (Split meta 59) as [|m0 [|m1 [|m2 ms]]] eqn:Em; try discriminate.
  destruct (HasPrefix m0 (str "data:image/")) eqn:Eh; [|discriminate].
  destruct (DecodeString payload) as [e|bytes] eqn:Ed; [discriminate|].
  intros H. injection H as <- <-.
  pose proof (Split_parts base64Image 44) as P1. rewrite Es in P1.
  inversion P1 as [|? ? Pmeta _]; subst.
  pose proof (Split_parts meta 59) as P2. rewrite Em in P2.
  inversion P2 as [|? ? Pm0 _]; subst.
  apply Split_two in Es. apply Split_two in Em.
  unfold TrimPrefix. rewrite Eh. repeat split.
  - apply skipn_without. intros K. apply Pmeta. rewrite Em.
    apply in_or_app. now left.
  - now apply skipn_without.
  - exists (meta ++ [44]), payload. rewrite <- app_assoc. auto.
Qed.

(** X11: only an input with exactly one comma is looked at as a data URI.
    With no comma, or with two or more, the whole input goes to the
    decoder and the format is "jpeg". *)
Theorem several_commas_are_bare (base64Image : text) :
  count_occ N.eq_dec base64Image 44 <> 1%nat ->
  processBase64Image base64Image
  = match DecodeString base64Image with
    | inl err => inl (DecodeFailed err)
    | inr imageData => inr (imageData, str "jpeg")
    end.
Proof.
  intros H. unfold Detect.processBase64Image.
  pose proof (Split_length base64Image 44) as L.
  destruct (Split base64Image 44) as [|meta [|payload [|p3 ps]]];
    try (destruct (DecodeString base64Image); reflexivity).
  simpl in L. injection L as L. congruence.
Qed.

End ImageMore.

Section DetectGate.
Import Detect.

Variables upperTable foldTable : N -> N.
Variable DecodeString : text -> string + list Byte.byte.
Variable API_KEY : string.
Variables loggingClient genaiClient : bool.

Local Abbreviation DetectHazardsWith :=
  (fun model =>
     Detect.DetectHazards upperTable foldTable DecodeString model
       API_KEY loggingClient genaiClient).

Lemma validateAPIKey_true (r : Request) :
  validateAPIKey API_KEY r = true <->
  XAPIKey r <> ""%string /\ (API_KEY = ""%string \/ XAPIKey r = API_KEY).
Proof.
  unfold validateAPIKey.
  destruct (String.eqb (XAPIKey r) "") eqn:E1.
  - apply String.eqb_eq in E1. split; [discriminate | tauto].
  - apply String.eqb_neq in E1.
    destruct (String.eqb API_KEY "") eqn:E2.
    + apply String.eqb_eq in E2. tauto.
    + apply String.eqb_neq in E2. rewrite String.eqb_eq. tauto.
Qed.

(** X12: the order of the gates.  A preflight request (OPTIONS) is
    answered 204 without a key; any other method than POST is answered 405
    whatever the key; a POST is answered 401 exactly when the X-API-Key
    header is empty, or [API_KEY] is set and differs from it, so with
    [API_KEY] unset every non-empty key is let through. *)
Theorem gate_order (model : text -> list Byte.byte -> string + list Candidate)
    (r : Request) :
  loggingClient = true ->
  (Method r = "OPTIONS"%string ->
   DetectHazardsWith model r = Responded 204 NoContent) /\
  (Method r <> "OPTIONS"%string -> Method r <> "POST"%string ->
   DetectHazardsWith model r
   = Responded 405 (ErrorPayload "Method not allowed")) /\
  (Method r = "POST"%string ->
   (DetectHazardsWith model r = Responded 401 (ErrorPayload "Invalid API key")
    <-> XAPIKey r = ""%string \/
        (API_KEY <> ""%string /\ XAPIKey r <> API_KEY))).
Proof.
  intros Hl. split; [|split].
  - intros Hm. unfold Detect.DetectHazards. now rewrite Hl, Hm.
  - intros H1 H2. unfold Detect.DetectHazards. rewrite Hl.
    apply String.eqb_neq in H1, H2. now rewrite H1, H2.
  - intros Hm.
    pose proof (validateAPIKey_true r) as V.
    destruct (validateAPIKey API_KEY r) eqn:Ek.
    + split.
      * unfold Detect.DetectHazards, respondWithError.
        rewrite Hl, Hm, Ek. cbn [negb String.eqb Ascii.eqb Bool.eqb andb].
        repeat match goal with
               | |- context [match ?x with _ => _ end] => destruct x
               end; discriminate.
      * intros H. exfalso. destruct V as [V _]. specialize (V eq_refl).
        destruct (string_dec API_KEY "") as [E | E]; intuition congruence.
    + assert (V' : ~ (XAPIKey r <> ""%string /\
                      (API_KEY = ""%string \/ XAPIKey r = API_KEY))).
      { intros P. apply V in P. discriminate P. }
      split.
      * intros _. destruct (string_dec (XAPIKey r) "") as [E | E]; [now left|].
        right. split.
        -- intros E1. apply V'. auto.
        -- intros E2. apply V'. auto.
      * intros _. unfold Detect.DetectHazards, respondWithError.
        now rewrite Hl, Hm, Ek.
Qed.

(** X13: the status codes.  The function exits through [log.Fatalf]
    exactly when the logging client cannot be made; otherwise an empty
    response has status 204, a detection has status 200, and an error
    message has status 400, 401, 405 or 500. *)
Theorem status_codes (model : text -> list Byte.byte -> string + list Candidate)
    (r : Request) :
  match DetectHazardsWith model r with
  | Fatal => loggingClient = false
  | Panicked => loggingClient = true
  | Responded code NoContent => loggingClient = true /\ code = 204
  | Responded code (DetectionPayload _) => loggingClient = true /\ code = 200
  | Responded code (ErrorPayload _) =>
      loggingClient = true /\
      (code = 400 \/ code = 401 \/ code = 405 \/ code = 500)
  end.
Proof.
  unfold Detect.DetectHazards, respondWithError.
  destruct loggingClient; [|reflexivity]. cbn [negb].
  destruct (String.eqb (Method r) "OPTIONS"); [auto|].
  destruct (negb (String.eqb (Method r) "POST")); [auto 8|].
  destruct (negb (validateAPIKey API_KEY r)); [auto 8|].
  destruct (DecodeRequest foldTable (Body r)) as [req|]; [|auto 8].
  destruct (processBase64Image DecodeString (Image req)) as [e|[img fmt]];
    [auto 8|].
  destruct (negb genaiClient); [auto 8|].
  destruct (model fmt img) as [e|[|c cs]]; [auto 8 | auto 8 |].
  destruct (Content c) as [[|[jsonStr|] parts]|]; auto 8.
  destruct (UnmarshalDetection foldTable jsonStr); auto 8.
Qed.

(** X14: the model is consulted about nothing but the image decoded from
    the request: two models that give the same answer for that format and
    those bytes lead to the same outcome, and a request that does not get
    that far has the same outcome with any model. *)
Theorem model_consulted_on_decoded_image
    (model1 model2 : text -> list Byte.byte -> string + list Candidate)
    (r : Request) :
  (forall req imageData format,
      DecodeRequest foldTable (Body r) = Some req ->
      Detect.processBase64Image DecodeString (Image req)
      = inr (imageData, format) ->
      model1 format imageData = model2 format imageData) ->
  DetectHazardsWith model1 r = DetectHazardsWith model2 r.
Proof.
  intros H. unfold Detect.DetectHazards.
  destruct (negb loggingClient); [reflexivity|].
  destruct (String.eqb (Method r) "OPTIONS"); [reflexivity|].
  destruct (negb (String.eqb (Method r) "POST")); [reflexivity|].
  destruct (negb (validateAPIKey API_KEY r)); [reflexivity|].
  destruct (DecodeRequest foldTable (Body r)) as [req|]; [|reflexivity].
  destruct (Detect.processBase64Image DecodeString (Image req))
    as [e|[imageData format]] eqn:Ei; [reflexivity|].
  destruct (negb genaiClient); [reflexivity|].
  now rewrite (H req imageData format eq_refl Ei).
Qed.

End DetectGate.

Lemma declared_severity_recognition_witness :
  Detect.safeguardSeverity Examples.plainTable
    {| Detect.Hazards := []; Detect.Severity := str "high";
       Detect.SafeDirection := str "Walk straight" |}
  = Detect.safeguardSeverity Examples.plainTable
      {| Detect.Hazards := []; Detect.Severity := [];
         Detect.SafeDirection := str "Walk straight" |}.
Proof.
  refine (proj1 (declared_severity_recognition Examples.plainTable []
                   (str "high") (str "Walk straight") _ _));
    discriminate.
Defined.

Lemma malformed_data_uri_witness :
  Detect.processBase64Image Examples.strictBase64
    (str "data:text/plain;base64,aGVsbG8=")
  = inl Detect.InvalidDataURI /\
  Detect.processBase64Image Examples.strictBase64
    (str "data:image/png,aGVsbG8=")
  = inl Detect.InvalidDataURI.
Proof.
  split.
  - refine (malformed_data_uri Examples.strictBase64
              (str "data:text/plain;base64") (str "aGVsbG8=") _ _ _).
    + vm_compute. intuition discriminate.
    + vm_compute. intuition discriminate.
    + right. reflexivity.
  - refine (malformed_data_uri Examples.strictBase64
              (str "data:image/png") (str "aGVsbG8=") _ _ _).
    + vm_compute. intuition discriminate.
    + vm_compute. intuition discriminate.
    + left. vm_compute. discriminate.
Defined.

Lemma decoded_image_shape_witness :
  exists before b64Data,
    str "data:image/png;base64,aGVsbG8=" = before ++ b64Data /\
    Examples.strictBase64 b64Data
    = inr (map Examples.toByte [104; 101; 108; 108; 111]).
Proof.
  refine (proj2 (proj2 (decoded_image_shape Examples.strictBase64
                          (str "data:image/png;base64,aGVsbG8=")
                          (map Examples.toByte [104; 101; 108; 108; 111])
                          (str "png") _))).
  vm_compute. reflexivity.
Defined.

Lemma several_commas_are_bare_witness :
  Detect.processBase64Image Examples.strictBase64
    (str "data:image/png;base64,aGVs,bG8=")
  = inl (Detect.DecodeFailed "illegal base64 data at input byte 4").
Proof.
  rewrite (several_commas_are_bare Examples.strictBase64).
  - vm_compute. reflexivity.
  - vm_compute. discriminate.
Defined.

Lemma gate_order_witness :
  Detect.DetectHazards Examples.plainTable Examples.plainTable
    Examples.strictBase64
    (Examples.modelAnswering (Detect.Value (Detect.JObject [])))
    "" true true
    {| Detect.Method := "POST"; Detect.XAPIKey := "";
       Detect.Body := Detect.Body Examples.imageRequest |}
  = Detect.Responded 401 (Detect.ErrorPayload "Invalid API key").
Proof.
  refine (proj2 (proj2 (proj2 (gate_order Examples.plainTable
    Examples.plainTable Examples.strictBase64 "" true true
    (Examples.modelAnswering (Detect.Value (Detect.JObject [])))
    {| Detect.Method := "POST"; Detect.XAPIKey := "";
       Detect.Body := Detect.Body Examples.imageRequest |} eq_refl))
    eq_refl) _).
  left. reflexivity.
Defined.

Lemma model_consulted_on_decoded_image_witness :
  Detect.DetectHazards Examples.plainTable Examples.plainTable
    Examples.strictBase64
    (fun format _ =>
       if Text.eqb format (str "jpeg")
       then inr [ {| Detect.Content :=
                       Some [Detect.Text (Detect.Value (Detect.JObject []))] |} ]
       else inl "unsupported format"%string)
    "secret" true true Examples.imageRequest
  = Detect.DetectHazards Examples.plainTable Examples.plainTable
      Examples.strictBase64
      (Examples.modelAnswering (Detect.Value (Detect.JObject [])))
      "secret" true true Examples.imageRequest.
Proof.
  refine (model_consulted_on_decoded_image Examples.plainTable
            Examples.plainTable Examples.strictBase64 "secret" true true
            _ _ Examples.imageRequest _).
  intros req imageData format Hreq Himg.
  vm_compute in Hreq. injection Hreq as <-.
  vm_compute in Himg. injection Himg as <- <-. reflexivity.
Defined.

(** ** More on the place search service *)

Section PlacesMore.
Import Places Matrix.

Variable number : Type.
Variable numberToString : number -> string.
Variable placesGateway :
  SearchBody number -> SearchHeaders -> AxiosError + PlacesData number.
Variable distanceGateway : DistanceParams -> AxiosError + DistanceData.
Variable apiKey : option string.

Local Abbreviation searchPlaces :=
  (Places.searchPlaces number numberToString placesGateway distanceGateway
     apiKey).
Local Abbreviation latLng := (Places.latLng number numberToString).
Local Abbreviation enrich := (Places.enrich number).
Local Abbreviation M := (Places.M number).
Local Abbreviation bind := (Places.bind number).
Local Abbreviation ret := (Places.ret number).
Local Abbreviation defined := (Places.defined number).
Local Abbreviation mapM := (Places.mapM number).
Local Abbreviation merge :=
  (fun (data : DistanceData) (place : Place number) (i : nat) =>
     bind (defined (nth_error (rows data) 0))
       (fun row =>
          bind (defined (nth_error (elements row) i))
            (fun element =>
               ret {| place := place;
                      placeDistance := distance element;
                      placeDuration := duration element |}))).

Lemma mapM_locations_missing (l : list (Place number)) (index : nat)
    (log : list (Call number)) :
  Exists (fun p => location number p = None) l ->
  mapM (fun place _ => defined (location number place)) l index log
  = (log, inl TypeError).
Proof.
  revert index; induction l as [|p l IH]; intros index H.
  - inversion H.
  - simpl. destruct (location number p) as [c|] eqn:Hp.
    + assert (Hl : Exists (fun p => location number p = None) l).
      { inversion H as [? ? K | ? ? K]; subst; [congruence | exact K]. }
      rewrite (bind_returns number _ _ log log c) by reflexivity.
      now rewrite (bind_throws number _ _ log log TypeError) by (now apply IH).
    + now rewrite (bind_throws number _ _ log log TypeError) by reflexivity.
Qed.

Lemma locations_cases (l : list (Place number)) :
  (exists sent, map (location number) l = map Some sent) \/
  Exists (fun p => location number p = None) l.
Proof.
  induction l as [|p l [[sent IH] | IH]].
  - left. now exists [].
  - destruct (location number p) as [c|] eqn:Hp.
    + left. exists (c :: sent). simpl. now rewrite Hp, IH.
    + right. now constructor.
  - right. now constructor 2.
Qed.

Lemma mapM_merge_short (l : list (Place number)) (data : DistanceData)
    (index : nat) (log : list (Call number)) :
  l <> [] ->
  (List.length (firstElements data) < index + List.length l)%nat ->
  mapM (merge data) l index log = (log, inl TypeError).
Proof.
  revert index; induction l as [|p l IH]; intros index Hne Hlen;
    [congruence|].
  cbn [Places.mapM].
  destruct (merge data p index log) as [log' [e|ep]] eqn:Em.
  - assert (log' = log /\ e = TypeError) as [-> ->].
    { revert Em. unfold Places.bind, Places.defined, Places.ret, Places.throw.
      destruct (nth_error (rows data) 0) as [row|]; cbn.
      - destruct (nth_error (elements row) index); cbn; intros H;
          [discriminate H | injection H; intros; subst; auto].
      - intros H; injection H; intros; subst; auto. }
    now rewrite (bind_throws number _ _ log log TypeError).
  - assert (log' = log /\ (index < List.length (firstElements data))%nat)
      as [-> Hi].
    { revert Em. unfold Places.bind, Places.defined, Places.ret, Places.throw,
        firstElements.
      destruct (rows data) as [|row others]; cbn; [discriminate|].
      destruct (nth_error (elements row) index) eqn:He; cbn; [|discriminate].
      intros H; injection H; intros; subst. split; [reflexivity|].
      apply nth_error_Some. congruence. }
    rewrite (bind_returns number _ _ log log ep) by exact Em.
    rewrite (bind_throws number _ _ log log TypeError); [reflexivity|].
    apply IH.
    + destruct l; [simpl in Hlen; lia | discriminate].
    + simpl in Hlen. lia.
Qed.

Lemma mapM_merge_covered (l : list (Place number)) (data : DistanceData)
    (log : list (Call number)) :
  covers data (List.length l) ->
  mapM (merge data) l 0 log
  = (log, inr (map (fun pe => enrich (fst pe) (snd pe))
                   (combine l (firstElements data)))).
Proof.
  destruct data as [[|row others]]; unfold covers, firstElements; cbn [rows].
  - intros H. destruct l; [reflexivity | discriminate].
  - intros H.
    now apply (mapM_merge number l {| rows := row :: others |} row others 0 log).
Qed.

(** Every run of the service, by what the two gateways answer. *)
Lemma searchPlaces_cases
    (textQuery : string) (currentCoordinates : Coordinates number)
    (radius : number) (fields rankPreference : string) :
  let body := {| Places.textQuery := textQuery; center := currentCoordinates;
                 Places.radius := radius;
                 Places.rankPreference := rankPreference |} in
  let config := {| fieldMask := fields; apiKeyHeader := apiKey |} in
  let post := PlacesPost number placesUrl body config in
  let paramsFor := fun sent =>
    {| origins := latLng currentCoordinates;
       destinations := String.concat "|" (map latLng sent);
       mode := "walking";
       key := apiKey |} in
  let run :=
    searchPlaces textQuery currentCoordinates radius fields rankPreference [] in
  (exists e,
      placesGateway body config = inl e /\
      run = ([post],
             inl (ErrorObj (String.append "Search Places API error: "
                                          (upstreamMessage e))))) \/
  (placesGateway body config = inr {| places := None |} /\
   run = ([post], inl TypeError)) \/
  (exists candidates,
      placesGateway body config = inr {| places := Some candidates |} /\
      ((Exists (fun p => location number p = None) (firstn 4 candidates) /\
        run = ([post], inl TypeError)) \/
       (exists sent,
           map (location number) (firstn 4 candidates) = map Some sent /\
           let get := DistanceGet number distanceMatrixUrl (paramsFor sent) in
           ((exists e,
                distanceGateway (paramsFor sent) = inl e /\
                run = ([post; get],
                       inl (ErrorObj (String.append "Search Places API error: "
                                                    (upstreamMessage e))))) \/
            (exists data,
                distanceGateway (paramsFor sent) = inr data /\
                ((~ covers data (List.length (firstn 4 candidates)) /\
                  run = ([post; get], inl TypeError)) \/
                 (covers data (List.length (firstn 4 candidates)) /\
                  run = ([post; get],
                         inr (map (fun pe => enrich (fst pe) (snd pe))
                                  (combine (firstn 4 candidates)
                                           (firstElements data))))))))))).
Proof.
  intros body config post paramsFor run. subst run.
  unfold Places.searchPlaces, Places.tryCatch.
  fold body. fold config.
  destruct (placesGateway body config) as [e|[[candidates|]]] eqn:Hs.
  - left. exists e. split; [reflexivity|].
    rewrite (bind_throws number _ _ [] [post] (Axios e)); [reflexivity|].
    unfold Places.axiosPost. now rewrite Hs.
  - right. right. exists candidates. split; [reflexivity|].
    rewrite (bind_returns number _ _ [] [post] {| places := Some candidates |})
      by (unfold Places.axiosPost; now rewrite Hs).
    cbn [places Places.defined].
    rewrite (bind_returns number _ _ _ _ candidates) by reflexivity.
    rewrite firstn_four.
    destruct (locations_cases (firstn 4 candidates)) as [[sent Hl] | Hl].
    + right. exists sent. split; [exact Hl|].
      set (get := DistanceGet number distanceMatrixUrl (paramsFor sent)).
      rewrite (bind_returns number _ _ _ _ sent)
        by (now apply mapM_locations).
      fold (paramsFor sent).
      destruct (distanceGateway (paramsFor sent)) as [e|data] eqn:Hd.
      * left. exists e. split; [reflexivity|].
        rewrite (bind_throws number _ _ [post] [post; get] (Axios e));
          [reflexivity|].
        unfold Places.axiosGet. now rewrite Hd.
      * right. exists data. split; [reflexivity|].
        rewrite (bind_returns number _ _ [post] [post; get] data)
          by (unfold Places.axiosGet; now rewrite Hd).
        assert (D : covers data (List.length (firstn 4 candidates)) \/
                    ~ covers data (List.length (firstn 4 candidates))).
        { unfold covers. destruct (rows data) as [|row others].
          - destruct (firstn 4 candidates); [now left | right; discriminate].
          - lia. }
        destruct D as [D | D].
        -- right. split; [exact D|].
           now rewrite mapM_merge_covered.
        -- left. split; [exact D|].
           rewrite mapM_merge_short; [reflexivity | |].
           ++ intros E. apply D. rewrite E. unfold covers.
              destruct (rows data); [reflexivity | simpl; lia].
           ++ revert D. generalize (firstn 4 candidates) as four.
              intros four D. unfold covers, firstElements in *.
              destruct (rows data) as [|row others].
              ** destruct four; [exfalso; now apply D | simpl; lia].
              ** simpl. lia.
    + left. split; [exact Hl|].
      rewrite (bind_throws number _ _ [post] [post] TypeError);
        [reflexivity|].
      now apply mapM_locations_missing.
  - right. left. split; [reflexivity|].
    rewrite (bind_returns number _ _ [] [post] {| places := None |})
      by (unfold Places.axiosPost; now rewrite Hs).
    now rewrite (bind_throws number _ _ [post] [post] TypeError).
Qed.

Lemma places_of_merge (l : list (Place number)) (es : list Element) :
  (List.length l <= List.length es)%nat ->
  map (place number) (map (fun pe => enrich (fst pe) (snd pe)) (combine l es))
  = l.
Proof.
  revert es; induction l as [|p l IH]; intros [|e es] H; simpl in *;
    try reflexivity; try lia.
  f_equal. apply IH. lia.
Qed.

Lemma covers_length (data : DistanceData) (l : list (Place number)) :
  covers data (List.length l) ->
  (List.length l <= List.length (firstElements data))%nat.
Proof.
  unfold covers, firstElements. destruct (rows data); [|auto].
  intros ->. reflexivity.
Qed.

Lemma map_Some_length {A B} (f : A -> option B) (l : list A) (sent : list B) :
  map f l = map Some sent -> List.length sent = List.length l.
Proof.
  intros H. apply (f_equal (@List.length _)) in H.
  now rewrite !length_map in H.
Qed.

(** X15: the requests a call makes.  There is always exactly one search
    request, made first.  A distance request follows only when the search
    answered with candidates of which the first four all have a location;
    there is never a second one, and it names at most four destinations,
    the coordinates of those candidates in their order.  Without it the
    call has thrown. *)
Theorem requests_made
    (textQuery : string) (currentCoordinates : Coordinates number)
    (radius : number) (fields rankPreference : string) :
  let body := {| Places.textQuery := textQuery; center := currentCoordinates;
                 Places.radius := radius;
                 Places.rankPreference := rankPreference |} in
  let config := {| fieldMask := fields; apiKeyHeader := apiKey |} in
  let post := PlacesPost number placesUrl body config in
  let run :=
    searchPlaces textQuery currentCoordinates radius fields rankPreference [] in
  (fst run = [post] /\ exists e, snd run = inl e) \/
  (exists candidates sent,
      placesGateway body config = inr {| places := Some candidates |} /\
      map (location number) (firstn 4 candidates) = map Some sent /\
      (List.length sent <= 4)%nat /\
      fst run = [post;
                 DistanceGet number distanceMatrixUrl
                   {| origins := latLng currentCoordinates;
                      destinations := String.concat "|" (map latLng sent);
                      mode := "walking";
                      key := apiKey |}]).
Proof.
  intros body config post run.
  pose proof (searchPlaces_cases textQuery currentCoordinates radius fields
                rankPreference) as C.
  cbv zeta in C. fold body config post in C. subst run.
  destruct C as [(e & _ & E) | [(_ & E) | (candidates & Hs & C)]].
  - left. rewrite E. split; [reflexivity | eexists; reflexivity].
  - left. rewrite E. split; [reflexivity | eexists; reflexivity].
  - destruct C as [(_ & E) | (sent & Hl & C)].
    + left. rewrite E. split; [reflexivity | eexists; reflexivity].
    + right. exists candidates, sent. split; [exact Hs|]. split; [exact Hl|].
      split.
      * rewrite (map_Some_length _ _ _ Hl), length_firstn. lia.
      * destruct C as [(e & _ & E) | (data & _ & [(_ & E) | (_ & E)])];
          rewrite E; reflexivity.
Qed.

(** X16: what a call returns.  A returned list is the first four
    candidates of the search answer, in their order and each exactly once,
    every one of them enriched: never more than four places, and never a
    part of them. *)
Theorem result_is_first_four
    (textQuery : string) (currentCoordinates : Coordinates number)
    (radius : number) (fields rankPreference : string)
    (result : list (EnrichedPlace number)) :
  snd (searchPlaces textQuery currentCoordinates radius fields rankPreference [])
  = inr result ->
  exists candidates,
    placesGateway
      {| Places.textQuery := textQuery; center := currentCoordinates;
         Places.radius := radius; Places.rankPreference := rankPreference |}
      {| fieldMask := fields; apiKeyHeader := apiKey |}
    = inr {| places := Some candidates |} /\
    map (place number) result = firstn 4 candidates /\
    (List.length result <= 4)%nat.
Proof.
  intros H.
  pose proof (searchPlaces_cases textQuery currentCoordinates radius fields
                rankPreference) as C.
  cbv zeta in C.
  destruct C as [(e & _ & E) | [(_ & E) | (candidates & Hs & C)]];
    try (rewrite E in H; discriminate H).
  destruct C as [(_ & E) | (sent & Hl & C)];
    try (rewrite E in H; discriminate H).
  destruct C as [(e & _ & E) | (data & _ & [(_ & E) | (Hc & E)])];
    try (rewrite E in H; discriminate H).
  rewrite E in H. cbn [snd] in H. injection H as H. subst result.
  exists candidates. split; [exact Hs|].
  assert (P : map (place number)
                (map (fun pe => enrich (fst pe) (snd pe))
                     (combine (firstn 4 candidates) (firstElements data)))
              = firstn 4 candidates)
    by (apply places_of_merge; now apply covers_length).
  split; [exact P|].
  apply (f_equal (@List.length _)) in P. rewrite length_map in P.
  etransitivity; [apply PeanoNat.Nat.eq_le_incl; exact P|].
  rewrite length_firstn. lia.
Qed.

Lemma map_Some_inj {A} (a b : list A) : map Some a = map Some b -> a = b.
Proof.
  revert b; induction a as [|x a IH]; intros [|y b] E; simpl in E;
    try discriminate; [reflexivity|].
  injection E as -> E. f_equal. now apply IH.
Qed.

(** X17: what a call throws, and for which answer of the gateways.  A
    failure of the search gateway, and just as well a failure of the
    distance gateway asked for the first four candidates, is thrown as an
    [Error] whose message is "Search Places API error: " followed by the
    upstream message of that very failure (the message of the gateway's
    response when it has one, the message of the axios error otherwise).
    Whatever else a call throws is a [TypeError]; the axios error itself
    never leaves the service. *)
Theorem thrown_values
    (textQuery : string) (currentCoordinates : Coordinates number)
    (radius : number) (fields rankPreference : string) :
  let body := {| Places.textQuery := textQuery; center := currentCoordinates;
                 Places.radius := radius;
                 Places.rankPreference := rankPreference |} in
  let config := {| fieldMask := fields; apiKeyHeader := apiKey |} in
  let paramsFor := fun sent =>
    {| origins := latLng currentCoordinates;
       destinations := String.concat "|" (map latLng sent);
       mode := "walking";
       key := apiKey |} in
  let reported := fun e : AxiosError =>
    ErrorObj (String.append "Search Places API error: " (upstreamMessage e)) in
  let run :=
    searchPlaces textQuery currentCoordinates radius fields rankPreference [] in
  (forall e,
      placesGateway body config = inl e -> snd run = inl (reported e)) /\
  (forall candidates sent e,
      placesGateway body config = inr {| places := Some candidates |} ->
      map (location number) (firstn 4 candidates) = map Some sent ->
      distanceGateway (paramsFor sent) = inl e ->
      snd run = inl (reported e)) /\
  (forall thrown,
      snd run = inl thrown ->
      thrown = TypeError \/
      (exists e, placesGateway body config = inl e /\ thrown = reported e) \/
      (exists candidates sent e,
          placesGateway body config = inr {| places := Some candidates |} /\
          map (location number) (firstn 4 candidates) = map Some sent /\
          distanceGateway (paramsFor sent) = inl e /\
          thrown = reported e)).
Proof.
  intros body config paramsFor reported run.
  pose proof (searchPlaces_cases textQuery currentCoordinates radius fields
                rankPreference) as C.
  cbv zeta in C. fold body config in C. fold run in C.
  split; [|split].
  - intros e He.
    destruct C as [(e' & E & R) | [(E & _) | (candidates & E & _)]];
      try congruence.
    rewrite He in E. injection E as <-. now rewrite R.
  - intros candidates sent e Hs Hl Hd.
    destruct C as [(e' & E & _) | [(E & _) | (candidates' & Hs' & C)]];
      try congruence.
    rewrite Hs in Hs'. injection Hs' as <-.
    destruct C as [(Hn & _) | (sent' & Hl' & C)].
    + exfalso. rewrite Exists_exists in Hn. destruct Hn as (p & Hin & Hp).
      apply (in_map (location number)) in Hin. rewrite Hl, Hp in Hin.
      apply in_map_iff in Hin as (c & Hc' & _). discriminate.
    + rewrite Hl in Hl'. apply map_Some_inj in Hl'. subst sent'.
      fold (paramsFor sent) in C.
      destruct C as [(e' & E & R) | (data & E & _)]; [|congruence].
      rewrite Hd in E. injection E as <-. now rewrite R.
  - intros thrown H.
    destruct C as [(e & He & E) | [(_ & E) | (candidates & Hs & C)]].
    + rewrite E in H. injection H as <-. right. left. now exists e.
    + rewrite E in H. injection H as <-. now left.
    + destruct C as [(_ & E) | (sent & Hl & C)].
      * rewrite E in H. injection H as <-. now left.
      * fold (paramsFor sent) in C.
        destruct C as [(e & He & E) | (data & _ & [(_ & E) | (_ & E)])];
          rewrite E in H.
        -- injection H as <-. right. right. now exists candidates, sent, e.
        -- injection H as <-. now left.
        -- discriminate H.
Qed.

(** X18: a distance answer that does not hold an element for every
    destination (no row, or a first row shorter than the candidates sent)
    makes the call throw a [TypeError] after both requests: the places
    that did get an element are not returned. *)
Theorem short_matrix_throws
    (textQuery : string) (currentCoordinates : Coordinates number)
    (radius : number) (fields rankPreference : string)
    (candidates : list (Place number)) (sent : list (Coordinates number))
    (data : DistanceData) :
  let body := {| Places.textQuery := textQuery; center := currentCoordinates;
                 Places.radius := radius;
                 Places.rankPreference := rankPreference |} in
  let config := {| fieldMask := fields; apiKeyHeader := apiKey |} in
  let params := {| origins := latLng currentCoordinates;
                   destinations := String.concat "|" (map latLng sent);
                   mode := "walking";
                   key := apiKey |} in
  placesGateway body config = inr {| places := Some candidates |} ->
  map (location number) (firstn 4 candidates) = map Some sent ->
  distanceGateway params = inr data ->
  ~ covers data (List.length (firstn 4 candidates)) ->
  searchPlaces textQuery currentCoordinates radius fields rankPreference []
  = ([PlacesPost number placesUrl body config;
      DistanceGet number distanceMatrixUrl params],
     inl TypeError).
Proof.
  intros body config params Hs Hl Hd Hc.
  pose proof (searchPlaces_cases textQuery currentCoordinates radius fields
                rankPreference) as C.
  cbv zeta in C. fold body config in C.
  assert (Inj : forall a b : list (Coordinates number),
            map Some a = map Some b -> a = b).
  { induction a as [|x a IH]; intros [|y b] E; simpl in E;
      try discriminate; [reflexivity|].
    injection E as -> E. f_equal. now apply IH. }
  destruct C as [(e & E & _) | [(E & _) | (candidates' & Hs' & C)]];
    try congruence.
  rewrite Hs in Hs'. injection Hs' as <-.
  destruct C as [(Hn & _) | (sent' & Hl' & C)].
  - exfalso. rewrite Exists_exists in Hn. destruct Hn as (p & Hin & Hp).
    apply (in_map (location number)) in Hin. rewrite Hl, Hp in Hin.
    apply in_map_iff in Hin as (c & Hc' & _). discriminate.
  - rewrite Hl in Hl'. apply Inj in Hl'. subst sent'. fold params in C.
    destruct C as [(e & E & _) | (data' & Hd' & C)]; [congruence|].
    rewrite Hd in Hd'. injection Hd' as <-.
    destruct C as [(_ & E) | (Hc' & _)]; [exact E | contradiction].
Qed.

(** X19: a search answer without a [places] property, or with a candidate
    among the first four that has no location, makes the call throw a
    [TypeError] after the search request alone; the distance gateway is
    not asked.  Candidates after the fourth are not looked at. *)
Theorem unusable_search_answer
    (textQuery : string) (currentCoordinates : Coordinates number)
    (radius : number) (fields rankPreference : string)
    (answer : PlacesData number) :
  let body := {| Places.textQuery := textQuery; center := currentCoordinates;
                 Places.radius := radius;
                 Places.rankPreference := rankPreference |} in
  let config := {| fieldMask := fields; apiKeyHeader := apiKey |} in
  placesGateway body config = inr answer ->
  match places number answer with
  | None => True
  | Some candidates =>
      Exists (fun p => location number p = None) (firstn 4 candidates)
  end ->
  searchPlaces textQuery currentCoordinates radius fields rankPreference []
  = ([PlacesPost number placesUrl body config], inl TypeError).
Proof.
  intros body config Hs Hbad.
  pose proof (searchPlaces_cases textQuery currentCoordinates radius fields
                rankPreference) as C.
  cbv zeta in C. fold body config in C.
  destruct C as [(e & E & _) | [(E & R) | (candidates & Hs' & C)]];
    [congruence | exact R |].
  rewrite Hs in Hs'. injection Hs' as ->. cbn [places] in Hbad.
  destruct C as [(_ & R) | (sent & Hl & _)]; [exact R|].
  exfalso. rewrite Exists_exists in Hbad. destruct Hbad as (p & Hin & Hp).
  apply (in_map (location number)) in Hin. rewrite Hl, Hp in Hin.
  apply in_map_iff in Hin as (c & Hc' & _). discriminate.
Qed.

End PlacesMore.

Lemma result_is_first_four_witness :
  exists candidates,
    inr {| Places.places := Some Examples.sixPlaces |}
    = inr {| Places.places := Some candidates |}
      :> Places.AxiosError + Places.PlacesData N /\
    map (Places.place N)
        (map (fun pe => Places.enrich N (fst pe) (snd pe))
             (combine (firstn 4 Examples.sixPlaces) Examples.fourWalks))
    = firstn 4 candidates /\
    (List.length
       (map (fun pe => Places.enrich N (fst pe) (snd pe))
            (combine (firstn 4 Examples.sixPlaces) Examples.fourWalks))
     <= 4)%nat.
Proof.
  refine (result_is_first_four N Examples.showN
            (fun _ _ => inr {| Places.places := Some Examples.sixPlaces |})
            (fun _ => inr {| Places.rows :=
                               [ {| Places.elements := Examples.fourWalks |} ] |})
            (Some "key"%string) "pharmacy" Examples.here 10000
            "places.location" "DISTANCE" _ _).
  reflexivity.
Defined.

Lemma thrown_values_witness :
  snd (Places.searchPlaces N Examples.showN
         (fun _ _ => inr {| Places.places := Some Examples.sixPlaces |})
         (fun _ => inl {| Places.responseMessage := Some "quota exceeded"%string;
                          Places.message := "Request failed" |})
         (Some "key"%string) "pharmacy" Examples.here 10000
         "places.location" "DISTANCE" [])
  = inl (Places.ErrorObj "Search Places API error: quota exceeded").
Proof.
  refine (proj1 (proj2 (thrown_values N Examples.showN
            (fun _ _ => inr {| Places.places := Some Examples.sixPlaces |})
            (fun _ => inl {| Places.responseMessage := Some "quota exceeded"%string;
                             Places.message := "Request failed" |})
            (Some "key"%string) "pharmacy" Examples.here 10000
            "places.location" "DISTANCE"))
            Examples.sixPlaces
            [ {| Places.latitude := 10; Places.longitude := 20 |};
              {| Places.latitude := 11; Places.longitude := 21 |};
              {| Places.latitude := 11; Places.longitude := 21 |};
              {| Places.latitude := 13; Places.longitude := 23 |} ]
            {| Places.responseMessage := Some "quota exceeded"%string;
               Places.message := "Request failed" |}
            eq_refl eq_refl eq_refl).
Defined.

Lemma short_matrix_throws_witness :
  Places.searchPlaces N Examples.showN
    (fun _ _ => inr {| Places.places := Some Examples.sixPlaces |})
    (fun _ => inr {| Places.rows :=
                       [ {| Places.elements := firstn 3 Examples.fourWalks |} ] |})
    (Some "key"%string) "pharmacy" Examples.here 10000
    "places.location" "DISTANCE" []
  = ([Places.PlacesPost N Places.placesUrl
        {| Places.textQuery := "pharmacy"; Places.center := Examples.here;
           Places.radius := 10000; Places.rankPreference := "DISTANCE" |}
        {| Places.fieldMask := "places.location";
           Places.apiKeyHeader := Some "key"%string |};
      Places.DistanceGet N Places.distanceMatrixUrl
        {| Places.origins := "1,2";
           Places.destinations := "10,20|11,21|11,21|13,23";
           Places.mode := "walking";
           Places.key := Some "key"%string |}],
     inl Places.TypeError).
Proof.
  refine (short_matrix_throws N Examples.showN _ _ (Some "key"%string)
            "pharmacy" Examples.here 10000 "places.location" "DISTANCE"
            Examples.sixPlaces
            [ {| Places.latitude := 10; Places.longitude := 20 |};
              {| Places.latitude := 11; Places.longitude := 21 |};
              {| Places.latitude := 11; Places.longitude := 21 |};
              {| Places.latitude := 13; Places.longitude := 23 |} ]
            {| Places.rows :=
                 [ {| Places.elements := firstn 3 Examples.fourWalks |} ] |}
            _ _ _ _).
  - reflexivity.
  - reflexivity.
  - reflexivity.
  - unfold Matrix.covers. simpl. lia.
Defined.

Lemma unusable_search_answer_witness :
  Places.searchPlaces N Examples.showN
    (fun _ _ =>
       inr {| Places.places :=
                Some [ Examples.placeAt "A" 10 20;
                       {| Places.displayName := "B";
                          Places.formattedAddress := "2 Main Street";
                          Places.location := None |} ] |})
    (fun _ => inr {| Places.rows :=
                       [ {| Places.elements := Examples.fourWalks |} ] |})
    None "pharmacy" Examples.here 10000 "places.displayName" "DISTANCE" []
  = ([Places.PlacesPost N Places.placesUrl
        {| Places.textQuery := "pharmacy"; Places.center := Examples.here;
           Places.radius := 10000; Places.rankPreference := "DISTANCE" |}
        {| Places.fieldMask := "places.displayName";
           Places.apiKeyHeader := None |}],
     inl Places.TypeError).
Proof.
  refine (unusable_search_answer N Examples.showN _ _ None
            "pharmacy" Examples.here 10000 "places.displayName" "DISTANCE"
            _ eq_refl _).
  cbn. apply Exists_cons_tl. apply Exists_cons_hd. reflexivity.
Defined.

(** ** The place search handler *)

Section SearchHandlerFacts.
Import Places Matrix SearchHandler.

Variable number : Type.
Variable numberToString : number -> string.
Variable placesGateway :
  SearchBody number -> SearchHeaders -> AxiosError + PlacesData number.
Variable distanceGateway : DistanceParams -> AxiosError + DistanceData.
Variable apiKey : option string.
Variable tenThousand : number.

Local Abbreviation handleSearchPlaces :=
  (SearchHandler.handleSearchPlaces number numberToString placesGateway
     distanceGateway apiKey tenThousand).
Local Abbreviation searchPlaces :=
  (Places.searchPlaces number numberToString placesGateway distanceGateway
     apiKey).

(** A body the handler accepts: a non-empty query and coordinates. *)
Local Abbreviation usable :=
  (fun (body : option (SearchPleacesRequest number)) =>
     exists b query coordinates,
       body = Some b /\ textQuery number b = Some query /\
       query <> ""%string /\ currentCoordinates number b = Some coordinates).

Lemma handleSearchPlaces_usable (b : SearchPleacesRequest number)
    (query : string) (coordinates : Coordinates number) :
  textQuery number b = Some query -> query <> ""%string ->
  currentCoordinates number b = Some coordinates ->
  handleSearchPlaces (Some b)
  = match searchPlaces query coordinates
            (orDefault (radius number b) tenThousand)
            (orDefault (fields number b) defaultFields)
            (orDefault (rankPreference number b) "DISTANCE"%string) [] with
    | (log, inr result) =>
        (log, {| status := 200; json := PlacesJson number result |})
    | (log, inl error) =>
        (log, {| status := 500;
                 json := ErrorJson number "Error searching places"%string
                           (Some (detailsOf error)) |})
    end.
Proof.
  intros Hq Hne Hc. unfold SearchHandler.handleSearchPlaces.
  rewrite Hq, Hc. apply String.eqb_neq in Hne. now rewrite Hne.
Qed.

Lemma handleSearchPlaces_refused (body : option (SearchPleacesRequest number)) :
  ~ usable body ->
  fst (handleSearchPlaces body) = [] /\
  status number (snd (handleSearchPlaces body)) = 400.
Proof.
  intros H. unfold SearchHandler.handleSearchPlaces.
  destruct body as [b|]; [|now split].
  destruct (textQuery number b) as [query|] eqn:Hq; [|now split].
  destruct (currentCoordinates number b) as [c|] eqn:Hc; [|now split].
  destruct (String.eqb query "") eqn:He; [now split|].
  exfalso. apply H. exists b, query, c. apply String.eqb_neq in He. auto.
Qed.

(** X20: what the handler does with a request.  A request without a body,
    without coordinates, or with a missing or empty [textQuery] is answered
    400 and causes no request to any gateway.  Every other request goes to
    the search gateway and is answered 500 with "Error searching places",
    or 200 with at most four places after exactly two gateway requests. *)
Theorem search_handler_outcomes (body : option (SearchPleacesRequest number)) :
  (~ usable body /\
   fst (handleSearchPlaces body) = [] /\
   status number (snd (handleSearchPlaces body)) = 400) \/
  (usable body /\
   fst (handleSearchPlaces body) <> [] /\
   ((exists details,
        snd (handleSearchPlaces body)
        = {| status := 500;
             json := ErrorJson number "Error searching places"%string
                       (Some details) |}) \/
    (exists result,
        snd (handleSearchPlaces body)
        = {| status := 200; json := PlacesJson number result |} /\
        (List.length result <= 4)%nat /\
        List.length (fst (handleSearchPlaces body)) = 2%nat))).
Proof.
  assert (D : usable body \/ ~ usable body).
  { destruct body as [b|]; [|right; intros (b & q & c & E & _); discriminate].
    destruct (textQuery number b) as [query|] eqn:Hq.
    2:{ right. intros (b' & q & c & E & Hq' & _). injection E as <-.
        congruence. }
    destruct (currentCoordinates number b) as [c|] eqn:Hc.
    2:{ right. intros (b' & q & c & E & _ & _ & Hc'). injection E as <-.
        congruence. }
    destruct (string_dec query "") as [E | E].
    - right. intros (b' & q & c' & E' & Hq' & Hne & _). injection E' as <-.
      congruence.
    - left. exists b, query, c. auto. }
  destruct D as [U | U]; [right | left; split; [exact U|]].
  2:{ now apply handleSearchPlaces_refused. }
  split; [exact U|].
  destruct U as (b & query & c & -> & Hq & Hne & Hc).
  rewrite (handleSearchPlaces_usable b query c Hq Hne Hc).
  pose proof (searchPlaces_cases number numberToString placesGateway
                distanceGateway apiKey query c
                (orDefault (radius number b) tenThousand)
                (orDefault (fields number b) defaultFields)
                (orDefault (rankPreference number b) "DISTANCE"%string)) as C.
  cbv zeta in C.
  destruct C as [(e & _ & E) | [(_ & E) | (candidates & _ & C)]].
  - rewrite E. split; [discriminate|]. left. eexists. reflexivity.
  - rewrite E. split; [discriminate|]. left. eexists. reflexivity.
  - destruct C as [(_ & E) | (sent & _ & C)].
    + rewrite E. split; [discriminate|]. left. eexists. reflexivity.
    + destruct C as [(e & _ & E) | (data & _ & [(_ & E) | (Hc' & E)])];
        rewrite E; (split; [discriminate|]).
      * left. eexists. reflexivity.
      * left. eexists. reflexivity.
      * right. eexists. split; [reflexivity|]. split; [|reflexivity].
        rewrite length_map, length_combine.
        etransitivity; [apply PeanoNat.Nat.le_min_l|].
        rewrite length_firstn. lia.
Qed.


End SearchHandlerFacts.

(** ** Directions *)

Section DirectionFacts.
Import Direction.

Variable number : Type.
Variable numberToString : number -> string.
Variable encodeURI : string -> string.
Variable DirectionsResult : Type.
Variable directionsGateway :
  DirectionParams -> Places.AxiosError + DirectionsResult.
Variable apiKey : option string.

Local Abbreviation handleGetDirection :=
  (Direction.handleGetDirection number numberToString encodeURI
     DirectionsResult directionsGateway apiKey).
Local Abbreviation param := (Direction.param number numberToString encodeURI).


End DirectionFacts.

(** ** The HTTP functions *)

Section EntryFacts.
Import Entry.

Variables Call R : Type.

(** The key the function would refuse. *)
Local Abbreviation refused :=
  (fun (API_KEY : string) (req : Request) =>
     xApiKey req = None \/ xApiKey req = Some ""%string \/
     exists k, xApiKey req = Some k /\ k <> API_KEY).

Lemma validateApiKey_refused (API_KEY : string) (req : Request) :
  (refused API_KEY req -> @validateApiKey R API_KEY req = Some InvalidKey) /\
  (~ refused API_KEY req -> @validateApiKey R API_KEY req = None).
Proof.
  unfold validateApiKey. destruct (xApiKey req) as [k|] eqn:Hk.
  - destruct (String.eqb k "") eqn:E1; simpl.
    + apply String.eqb_eq in E1. subst k. split; [reflexivity|].
      intros H. exfalso. apply H. right. now left.
    + destruct (String.eqb k API_KEY) eqn:E2; simpl.
      * apply String.eqb_eq in E2. apply String.eqb_neq in E1. split.
        -- intros [H | [H | (k' & H & Hne)]]; try discriminate.
           ++ injection H as ->. congruence.
           ++ injection H as <-. congruence.
        -- reflexivity.
      * apply String.eqb_neq in E2. split; [reflexivity|].
        intros H. exfalso. apply H. right. right. now exists k.
  - split; [reflexivity|]. intros H. exfalso. apply H. now left.
Qed.

(** X23: the key check answers but does not stop.  A POST with a missing,
    empty or wrong key is answered 401, and the handler is run all the
    same: the requests it makes to the gateways are made whatever the key
    is.  With the right key the client reads the handler's response.  A
    preflight request is answered 204 without a key, and under any other
    method the handler is not run. *)
Theorem key_check_does_not_stop (API_KEY : string) (handler : list Call * R)
    (req : Request) :
  (method req = "OPTIONS"%string ->
   httpFunction API_KEY handler req = ([], Preflight)) /\
  (method req = "POST"%string ->
   fst (httpFunction API_KEY handler req) = fst handler /\
   (refused API_KEY req ->
    snd (httpFunction API_KEY handler req) = InvalidKey) /\
   (~ refused API_KEY req ->
    snd (httpFunction API_KEY handler req) = Handled (snd handler))) /\
  (method req <> "OPTIONS"%string -> method req <> "POST"%string ->
   fst (httpFunction API_KEY handler req) = [] /\
   (refused API_KEY req ->
    snd (httpFunction API_KEY handler req) = InvalidKey) /\
   (~ refused API_KEY req ->
    snd (httpFunction API_KEY handler req) = MethodNotAllowed)).
Proof.
  destruct (validateApiKey_refused API_KEY req) as [V1 V2].
  unfold httpFunction, validateCors. split; [|split].
  - intros ->. reflexivity.
  - intros Hm. rewrite Hm. cbn. split; [reflexivity|]. split; intros H.
    + now rewrite (V1 H).
    + now rewrite (V2 H).
  - intros H1 H2. apply String.eqb_neq in H1, H2. rewrite H1, H2. cbn.
    split; [reflexivity|]. split; intros H.
    + now rewrite (V1 H).
    + now rewrite (V2 H).
Qed.

End EntryFacts.

(** ** The object reader *)

Section ReaderFacts.
Import Reader.

Variable foldTable : N -> N.
Variable DecodeString : text -> string + list Byte.byte.
Variable GenerateContent : text -> list Byte.byte -> string + list Candidate.
Variable API_KEY : string.
Variables loggingClient genaiClient : bool.

Local Abbreviation ObjectReader :=
  (Reader.ObjectReader foldTable DecodeString GenerateContent API_KEY
     loggingClient genaiClient).

(** X24: the object reader passes the model's text on as it is.  A speech
    payload is only sent with status 200, for a POST with an accepted key
    whose image decoded, and its text is the text of the first part of the
    model's first candidate, unchanged (an empty text is sent as an empty
    speech). *)
Theorem reader_speech (r : Detect.Request) (code : N) (speech : text) :
  ObjectReader r = Responded code (SpeechPayload speech) ->
  code = 200 /\
  Detect.Method r = "POST"%string /\
  Detect.validateAPIKey API_KEY r = true /\
  exists req imageData format candidate candidates parts,
    Detect.DecodeRequest foldTable (Detect.Body r) = Some req /\
    Detect.processBase64Image DecodeString (Detect.Image req)
    = inr (imageData, format) /\
    GenerateContent format imageData = inr (candidate :: candidates) /\
    Content candidate = Some (Text speech :: parts).
Proof.
  unfold Reader.ObjectReader, respondWithError.
  destruct loggingClient; cbn [negb]; [|discriminate].
  destruct (String.eqb (Detect.Method r) "OPTIONS"); [discriminate|].
  destruct (String.eqb (Detect.Method r) "POST") eqn:Ep; cbn [negb];
    [|discriminate].
  destruct (Detect.validateAPIKey API_KEY r) eqn:Ek; cbn [negb];
    [|discriminate].
  destruct (Detect.DecodeRequest foldTable (Detect.Body r)) as [req|] eqn:Er;
    [|discriminate].
  destruct (Detect.processBase64Image DecodeString (Detect.Image req))
    as [e|[img fmt]] eqn:Ei; [discriminate|].
  destruct genaiClient; cbn [negb]; [|discriminate].
  destruct (GenerateContent fmt img) as [e|[|c cs]] eqn:Eg; try discriminate.
  destruct (Content c) as [[|[t|] parts]|] eqn:Ec; try discriminate.
  intros H. injection H as <- <-. apply String.eqb_eq in Ep.
  repeat split; auto.
  exists req, img, fmt, c, cs, parts. auto.
Qed.

End ReaderFacts.


Lemma key_check_does_not_stop_witness :
  let handler :=
    SearchHandler.handleSearchPlaces N Examples.showN
      (fun _ _ => inr {| Places.places := Some Examples.sixPlaces |})
      (fun _ => inr {| Places.rows :=
                         [ {| Places.elements := Examples.fourWalks |} ] |})
      (Some "key"%string) 10000
      (Some Examples.pharmacyRequest) in
  let req := {| Entry.method := "POST";
                Entry.xApiKey := Some "a wrong key"%string |} in
  List.length (fst (Entry.httpFunction "your-places-api-key" handler req))
  = 2%nat /\
  snd (Entry.httpFunction "your-places-api-key" handler req)
  = Entry.InvalidKey.
Proof.
  intros handler req.
  destruct (proj1 (proj2 (key_check_does_not_stop _ _
                            "your-places-api-key" handler req)) eq_refl)
    as (H1 & H2 & _).
  split.
  - rewrite H1. reflexivity.
  - apply H2. right. right. exists "a wrong key"%string.
    split; [reflexivity | discriminate].
Defined.

Lemma reader_speech_witness :
  200 = 200 /\
  "POST"%string = "POST"%string /\
  Detect.validateAPIKey "secret" Examples.imageRequest = true /\
  exists req imageData format candidate candidates parts,
    Detect.DecodeRequest Examples.plainTable
      (Detect.Body Examples.imageRequest) = Some req /\
    Detect.processBase64Image Examples.strictBase64 (Detect.Image req)
    = inr (imageData, format) /\
    inr [ {| Reader.Content := Some [Reader.Text []] |} ]
    = inr (candidate :: candidates)
      :> string + list Reader.Candidate /\
    Reader.Content candidate = Some (Reader.Text [] :: parts).
Proof.
  refine (reader_speech Examples.plainTable Examples.strictBase64
            (fun _ _ => inr [ {| Reader.Content := Some [Reader.Text []] |} ])
            "secret" true true Examples.imageRequest 200 [] _).
  vm_compute. reflexivity.
Defined.
